(** * HASPI batch scoring driver (recipes/cpc2/baseline/compute_haspi.py)

    A shallow embedding of the scoring script: the signal name parser, the
    string seeding of the random generator, the score computation for one
    signal, the JSONL results log and the resumable, sharded driver loop.

    Conventions.
    - A Python [str] is kept as the [string] of its UTF-8 bytes, so that
      [encode("utf-8")] is the list of its bytes; the separator ["_"] is one
      byte that never occurs inside a multi-byte sequence, so splitting bytes
      and splitting code points agree.
    - Python [int] is [Z]; Python [float] (and numpy's float64) is the
      primitive binary64 [float].
    - A raised exception is a value of [exn]; code that may raise returns a
      [result]. *)

From Stdlib Require Import ZArith List Strings.String Strings.Ascii Strings.Byte Bool Lia.
From Stdlib Require Import QArith Floats Uint63 DecimalString.
From Stdlib Require DecimalZ.
Import ListNotations.

#[local] Set Warnings "-register-all".

Local Open Scope list_scope.
Local Open Scope string_scope.

(** ** Exceptions and results *)

Inductive exn : Type :=
| ValueError (msg : string)
| KeyError (key : string)
| TypeError (msg : string)
| IndexError (msg : string)
| AssertionError
| FileNotFoundError (path : string)
| JSONDecodeError (msg : string)
| ScorerError (msg : string).

Inductive result (A : Type) : Type :=
| Ok (a : A)
| Raise (e : exn).
Arguments Ok {A} a.
Arguments Raise {A} e.

Definition raises {A} (r : result A) : Prop := exists e, r = Raise e.

(** ** Strings: [str.split(sep)] and [sep.join(parts)] *)

Module Str.

(** [s.split(sep)] for a one-character separator: the segments between the
    occurrences of [sep]; never the empty list. *)
Fixpoint split (sep : ascii) (s : string) : list string :=
  match s with
  | EmptyString => [EmptyString]
  | String c rest =>
      if Ascii.eqb c sep then EmptyString :: split sep rest
      else match split sep rest with
           | seg :: segs => String c seg :: segs
           | [] => [String c EmptyString]
           end
  end.

(** [sep.join(parts)] *)
Fixpoint join (sep : string) (parts : list string) : string :=
  match parts with
  | [] => EmptyString
  | [p] => p
  | p :: ps => p ++ sep ++ join sep ps
  end.

(** [c in s] for a character [c] *)
Fixpoint contains (c : ascii) (s : string) : bool :=
  match s with
  | EmptyString => false
  | String d rest => Ascii.eqb d c || contains c rest
  end.

Definition is_empty (s : string) : bool :=
  match s with EmptyString => true | String _ _ => false end.

End Str.

(** ** The signal name parser *)

(** [scene, listener, *system = signal_name.split("_")] raises [ValueError]
    when the split has fewer than two segments; the explicit check raises it
    when a leading segment is empty or nothing is left for the system. *)
Definition parse_cec2_signal_name (signal_name : string)
  : result (string * string * string) :=
  match Str.split "_" signal_name with
  | scene :: listener :: system =>
      if Str.is_empty scene || Str.is_empty listener
         || match system with [] => true | _ :: _ => false end
      then Raise (ValueError ("Invalid CEC2 signal name: " ++ signal_name))
      else Ok (scene, listener, Str.join "_" system)
  | _ =>
      Raise (ValueError
               "not enough values to unpack (expected at least 2, got 1)")
  end.

(** ** Hex digests and [int(text, 16)] *)

Module Hex.

(** One lower-case hex digit, as [hexdigest] writes it. *)
Definition digit (n : N) : ascii :=
  ascii_of_N (if (n <? 10)%N then 48 + n else 87 + n).

(** [bytes.hex()]: two digits per byte, high nibble first. *)
Fixpoint hexdigest (digest : list byte) : string :=
  match digest with
  | [] => EmptyString
  | b :: rest =>
      let n := Byte.to_N b in
      String (digit (n / 16)) (String (digit (n mod 16)) (hexdigest rest))
  end.

(** The value of a hex digit, in either case. *)
Definition value (c : ascii) : option Z :=
  let n := Z.of_N (N_of_ascii c) in
  if (48 <=? n)%Z && (n <=? 57)%Z then Some (n - 48)%Z
  else if (97 <=? n)%Z && (n <=? 102)%Z then Some (n - 87)%Z
  else if (65 <=? n)%Z && (n <=? 70)%Z then Some (n - 55)%Z
  else None.

Fixpoint parse_from (acc : Z) (text : string) : result Z :=
  match text with
  | EmptyString => Ok acc
  | String c rest =>
      match value c with
      | Some d => parse_from (16 * acc + d)%Z rest
      | None => Raise (ValueError "invalid literal for int() with base 16")
      end
  end.

(** [int(text, 16)] on a text of hex digits: what [hexdigest] produces.  The
    empty text and any other character are invalid literals. *)
Definition int16 (text : string) : result Z :=
  match text with
  | EmptyString => Raise (ValueError "invalid literal for int() with base 16")
  | _ => parse_from 0 text
  end.

(** The big-endian number a digest spells. *)
Fixpoint be_value (acc : Z) (digest : list byte) : Z :=
  match digest with
  | [] => acc
  | b :: rest => be_value (256 * acc + Z.of_N (Byte.to_N b))%Z rest
  end.

End Hex.

(** ** JSON values *)

Inductive json : Type :=
| JNull
| JBool (b : bool)
| JInt (n : Z)
| JFloat (x : float)
| JStr (s : string)
| JArr (items : list json)
| JObj (members : list (string * json)).

Fixpoint assoc {A} (key : string) (members : list (string * A)) : option A :=
  match members with
  | [] => None
  | (k, v) :: rest => if String.eqb k key then Some v else assoc key rest
  end.

(** [obj[key]] for a string key: only a dict has string keys. *)
Definition getitem (obj : json) (key : string) : result json :=
  match obj with
  | JObj members =>
      match assoc key members with
      | Some v => Ok v
      | None => Raise (KeyError key)
      end
  | JArr _ | JStr _ => Raise (TypeError "indices must be integers")
  | _ => Raise (TypeError "object is not subscriptable")
  end.

(** What may be a dict key: lists and dicts are unhashable. *)
Definition hashable (j : json) : bool :=
  match j with
  | JArr _ | JObj _ => false
  | _ => true
  end.

(** A manifest entry: a dict with a [signal] string and whatever else the
    dataset carries; the script reads [record["signal"]] only. *)
Record record : Type := {
  signal : string;
  other_fields : list (string * json)
}.

(** The dict [{"signal": signal_name, "haspi": haspi}] *)
Definition result_record (signal_name : string) (haspi : float) : json :=
  JObj [("signal", JStr signal_name); ("haspi", JFloat haspi)].

(** ** numpy arrays and WAV files *)

(** A 1-D array, or a 2-D array of shape (frames, channels) kept as the list
    of its columns, one per channel. *)
Inductive ndarray (A : Type) : Type :=
| Arr1 (samples : list A)
| Arr2 (columns : list (list A)).
Arguments Arr1 {A} samples.
Arguments Arr2 {A} columns.

Definition ndarray_map {A B} (f : A -> B) (a : ndarray A) : ndarray B :=
  match a with
  | Arr1 samples => Arr1 (map f samples)
  | Arr2 columns => Arr2 (map (map f) columns)
  end.

(** [a[:, k]] *)
Definition column {A} (a : ndarray A) (k : nat) : result (list A) :=
  match a with
  | Arr1 _ =>
      Raise (IndexError "too many indices for array")
  | Arr2 columns =>
      match nth_error columns k with
      | Some c => Ok c
      | None => Raise (IndexError "index is out of bounds for axis 1")
      end
  end.

(** Conversion of an integer sample to float64 (exact below 2^53). *)
Definition float_of_int (z : Z) : float :=
  if (z <? 0)%Z then PrimFloat.opp (PrimFloat.of_uint63 (Uint63.of_Z (- z)))
  else PrimFloat.of_uint63 (Uint63.of_Z z).

(** [sample / 32768.0] *)
Definition normalize (sample : Z) : float :=
  PrimFloat.div (float_of_int sample) 32768%float.

(** What [wavfile.read] returns: the sample rate and the integer PCM data,
    1-D for a mono file and 2-D otherwise. *)
Record wav : Type := {
  rate : Z;
  data : ndarray Z
}.

(** The value of a finite float as a rational; [None] for NaN and the
    infinities. *)
Definition float_value (x : float) : option Q :=
  match Prim2SF x with
  | S754_zero _ => Some 0%Q
  | S754_finite neg m e =>
      let mant := if neg then Z.neg m else Z.pos m in
      Some (match e with
            | Z0 => inject_Z mant
            | Z.pos p => inject_Z (mant * Z.pow_pos 2 p)
            | Z.neg p => Qmake mant (Pos.pow 2 p)
            end)
  | _ => None
  end.

(** ** Extended slices [l[start::step]] *)

Module Slice.

(** CPython's adjustment of a slice's start against the length. *)
Definition adjust_start (len start step : Z) : Z :=
  if (start <? 0)%Z then
    let s := (start + len)%Z in
    if (s <? 0)%Z then (if (step <? 0)%Z then -1 else 0)%Z else s
  else if (len <=? start)%Z then (if (step <? 0)%Z then len - 1 else len)%Z
  else start.

(** The stop of a slice that gives none: past the end a step runs to. *)
Definition default_stop (len step : Z) : Z :=
  if (step <? 0)%Z then (-1)%Z else len.

(** The number of selected positions (the dividends are not negative). *)
Definition length (start stop step : Z) : Z :=
  if (step <? 0)%Z then
    if (stop <? start)%Z then ((start - stop - 1) / (- step) + 1)%Z else 0%Z
  else
    if (start <? stop)%Z then ((stop - start - 1) / step + 1)%Z else 0%Z.

(** The positions [start, start + step, ...] a slice of a list of length
    [len] selects, in the order it yields them. *)
Definition positions (len start step : Z) : list Z :=
  let s := adjust_start len start step in
  let n := length s (default_stop len step) step in
  map (fun i => (s + Z.of_nat i * step)%Z) (seq 0 (Z.to_nat n)).

(** The items of [l] at the given positions. *)
Definition pick {A} (l : list A) (ps : list Z) : list A :=
  flat_map (fun p => match nth_error l (Z.to_nat p) with
                     | Some x => [x]
                     | None => []
                     end) ps.

(** [l[start::step]] *)
Definition from_step {A} (l : list A) (start step : Z) : result (list A) :=
  if (step =? 0)%Z then Raise (ValueError "slice step cannot be zero")
  else Ok (pick l (positions (Z.of_nat (List.length l)) start step)).

End Slice.

(** ** The libraries the script calls *)

(** Keyword arguments of [haspi_v2_be]. *)
Record haspi_args : Type := {
  reference_left : list float;
  reference_right : list float;
  processed_left : list float;
  processed_right : list float;
  fs_signal : Z;
  audiogram_left : json;
  audiogram_right : json;
  audiogram_cfs : json
}.

(** [hashlib.md5], numpy's global generator, the HASPI scorer of
    [clarity.evaluator.haspi] and the [json] codec are used as they come.
    An MD5 digest has 16 bytes; [mt_seed] is the state the generator is
    reset to by a seed; the scorer may draw from the global generator. *)
Class Externals : Type := {
  rng_state : Type;
  md5 : list byte -> list byte;
  md5_digest_size : forall message, List.length (md5 message) = 16%nat;
  mt_seed : Z -> rng_state;
  rng_draw : rng_state -> Z * rng_state;
  haspi_v2_be : haspi_args -> rng_state -> result float * rng_state;
  json_dumps : json -> string;
  json_loads : string -> result json
}.

(** ** Configuration *)

Record path_config : Type := {
  metadata_dir : string;
  signal_dir : string;
  scene_dir : string
}.

Record compute_haspi_config : Type := {
  batch : Z;
  n_batches : Z;
  set_random_seed : bool
}.

Record DictConfig : Type := {
  dataset : string;
  path : path_config;
  compute_haspi : compute_haspi_config
}.

(** [Path(dir) / name] for a relative [name]. *)
Definition path_join (dir name : string) : string := dir ++ "/" ++ name.

(** [str(n)] of an integer, as an f-string renders it. *)
Definition str_of_int (n : Z) : string := NilEmpty.string_of_int (Z.to_int n).

(** The name of the results log. *)
Definition results_file_name (cfg : DictConfig) : string :=
  let batch_str :=
    if (1 <? n_batches (compute_haspi cfg))%Z
    then "." ++ str_of_int (batch (compute_haspi cfg)) ++ "_"
             ++ str_of_int (n_batches (compute_haspi cfg))
    else EmptyString in
  dataset cfg ++ ".haspi" ++ batch_str ++ ".jsonl".

(** ** The world the script runs in *)

(** What a run does that can be seen from outside: it starts the score
    computation of a signal, and it appends a line to a file. *)
Inductive event : Type :=
| Scoring (signal_name : string)
| Appended (filename line : string).

Section Script.

Context {E : Externals}.

(** The files the script reads, each kept as what its reader returns (the
    manifest and the listener metadata as loaded JSON, the WAV files as
    [wavfile.read] gives them, a text file as the list of its lines), the
    state of numpy's global generator, and the events so far. *)
Record world : Type := {
  manifests : string -> option (list record);
  json_files : string -> option json;
  wav_files : string -> option wav;
  text_files : string -> option (list string);
  np_random : rng_state;
  trace : list event
}.

(** The lines of a text file; none when it does not exist. *)
Definition log_lines (w : world) (filename : string) : list string :=
  match text_files w filename with
  | Some lines => lines
  | None => []
  end.

Definition set_np_random (st : rng_state) (w : world) : world :=
  {| manifests := manifests w; json_files := json_files w;
     wav_files := wav_files w; text_files := text_files w;
     np_random := st; trace := trace w |}.

Definition emit (ev : event) (w : world) : world :=
  {| manifests := manifests w; json_files := json_files w;
     wav_files := wav_files w; text_files := text_files w;
     np_random := np_random w; trace := (trace w ++ [ev])%list |}.

Definition set_text_file (filename : string) (lines : list string) (w : world)
  : world :=
  {| manifests := manifests w; json_files := json_files w;
     wav_files := wav_files w;
     text_files := fun f => if String.eqb f filename then Some lines
                            else text_files w f;
     np_random := np_random w; trace := trace w |}.

(** Code that reads and changes the world and may raise; the world at the
    raise is kept, as a process that dies leaves it. *)
Definition M (A : Type) : Type := world -> result A * world.

Definition ret {A} (a : A) : M A := fun w => (Ok a, w).

Definition bind {A B} (m : M A) (k : A -> M B) : M B :=
  fun w => match m w with
           | (Ok a, w') => k a w'
           | (Raise e, w') => (Raise e, w')
           end.

Definition lift {A} (r : result A) : M A := fun w => (r, w).

Notation "x <- m ;; k" := (bind m (fun x => k))
  (at level 61, m at next level, right associativity).
Notation "' p <- m ;; k" := (bind m (fun x => match x with p => k end))
  (at level 61, p pattern, m at next level, right associativity).
Notation "m ;;; k" := (bind m (fun _ => k))
  (at level 61, right associativity).

Fixpoint for_each {A} (body : A -> M unit) (items : list A) : M unit :=
  match items with
  | [] => ret tt
  | x :: rest => body x ;;; for_each body rest
  end.

Fixpoint map_result {A B} (f : A -> result B) (l : list A) : result (list B) :=
  match l with
  | [] => Ok []
  | x :: rest =>
      match f x with
      | Raise e => Raise e
      | Ok y => match map_result f rest with
                | Raise e => Raise e
                | Ok ys => Ok (y :: ys)
                end
      end
  end.

(** *** Files *)

Definition load_manifest (filename : string) : M (list record) :=
  fun w => match manifests w filename with
           | Some records => (Ok records, w)
           | None => (Raise (FileNotFoundError filename), w)
           end.

Definition json_load (filename : string) : M json :=
  fun w => match json_files w filename with
           | Some j => (Ok j, w)
           | None => (Raise (FileNotFoundError filename), w)
           end.

Definition wavfile_read (filename : string) : M (Z * ndarray Z) :=
  fun w => match wav_files w filename with
           | Some f => (Ok (rate f, data f), w)
           | None => (Raise (FileNotFoundError filename), w)
           end.

Definition file_exists (filename : string) : M bool :=
  fun w => (Ok (match text_files w filename with
                | Some _ => true
                | None => false
                end), w).

(** [read_jsonl]: one [json.loads] per line. *)
Definition read_jsonl (filename : string) : M (list json) :=
  fun w => match text_files w filename with
           | Some lines => (map_result json_loads lines, w)
           | None => (Raise (FileNotFoundError filename), w)
           end.

(** [fp.write(line + "\n")] on a file opened for appending.  A text file
    is kept as the list of its lines, each with its newline: this is what
    the script itself writes.  A file left by something else with a last
    line that has no newline is not among these worlds. *)
Definition append_line (filename line : string) (w : world) : world :=
  emit (Appended filename line)
       (set_text_file filename (log_lines w filename ++ [line])%list w).

(** [write_jsonl]: opening in mode ["a"] creates a missing file; then one
    line per record.  The file is taken to be one that can be opened for
    appending: the results log lies in the working directory of the run,
    and a missing or read-only directory is not among these worlds. *)
Definition write_jsonl (filename : string) (records : list json) : M unit :=
  fun w =>
    (Ok tt,
     fold_left (fun w' r => append_line filename (json_dumps r) w') records
               (set_text_file filename (log_lines w filename) w)).

(** *** Seeding *)

(** [int(hashlib.md5(s.encode("utf-8")).hexdigest(), 16)] *)
Definition md5_int (seed_string : string) : result Z :=
  Hex.int16 (Hex.hexdigest (md5 (list_byte_of_string seed_string))).

(** [np.random.seed(seed)]: the legacy seeding takes a 32-bit unsigned
    value and resets the global generator from it. *)
Definition np_random_seed (seed : Z) : M unit :=
  fun w =>
    if (0 <=? seed)%Z && (seed <? 2 ^ 32)%Z
    then (Ok tt, set_np_random (mt_seed seed) w)
    else (Raise (ValueError "Seed must be between 0 and 2**32 - 1"), w).

Definition set_seed_with_string (seed_string : string) : M unit :=
  n <- lift (md5_int seed_string) ;;
  let md5_int := (n mod 10 ^ 8)%Z in
  np_random_seed md5_int.

(** The seed a string gives: the number its digest spells, modulo 10^8. *)
Definition seed_of_string (seed_string : string) : Z :=
  (Hex.be_value 0 (md5 (list_byte_of_string seed_string)) mod 10 ^ 8)%Z.

(** The next [n] outputs of a generator. *)
Fixpoint draws (n : nat) (st : rng_state) : list Z :=
  match n with
  | O => []
  | S k => let '(x, st') := rng_draw st in x :: draws k st'
  end.

(** *** The score of one signal *)

Definition assert (b : bool) : M unit :=
  fun w => if b then (Ok tt, w) else (Raise AssertionError, w).

Definition call_haspi_v2_be (args : haspi_args) : M float :=
  fun w => let '(r, st) := haspi_v2_be args (np_random w) in
           (r, set_np_random st w).

Definition compute_haspi_for_signal (signal_name : string) (path : path_config)
  : M float :=
  '(scene, listener, _) <- lift (parse_cec2_signal_name signal_name) ;;
  listener_audiograms <- json_load (path_join (metadata_dir path) "listeners.json") ;;
  audiogram <- lift (getitem listener_audiograms listener) ;;
  '(fs_proc, proc) <- wavfile_read (path_join (signal_dir path) (signal_name ++ ".wav")) ;;
  '(fs_ref, ref) <- wavfile_read (path_join (scene_dir path) (scene ++ "_target_ref.wav")) ;;
  assert (fs_ref =? fs_proc)%Z ;;;
  let proc := ndarray_map normalize proc in
  let ref := ndarray_map normalize ref in
  ref_l <- lift (column ref 0) ;;
  ref_r <- lift (column ref 1) ;;
  proc_l <- lift (column proc 0) ;;
  proc_r <- lift (column proc 1) ;;
  levels_l <- lift (getitem audiogram "audiogram_levels_l") ;;
  levels_r <- lift (getitem audiogram "audiogram_levels_r") ;;
  cfs <- lift (getitem audiogram "audiogram_cfs") ;;
  call_haspi_v2_be
    {| reference_left := ref_l; reference_right := ref_r;
       processed_left := proc_l; processed_right := proc_r;
       fs_signal := fs_proc;
       audiogram_left := levels_l; audiogram_right := levels_r;
       audiogram_cfs := cfs |}.

(** *** The driver *)

(** [{result["signal"]: result for result in results}], as the list of its
    items in insertion order.  An item whose key a later one repeats is kept:
    the script asks the dict for its keys only. *)
Fixpoint build_results_index (results : list json) : result (list (json * json)) :=
  match results with
  | [] => Ok []
  | r :: rest =>
      match getitem r "signal" with
      | Raise e => Raise e
      | Ok key =>
          if hashable key then
            match build_results_index rest with
            | Raise e => Raise e
            | Ok index => Ok ((key, r) :: index)
            end
          else Raise (TypeError "unhashable type")
      end
  end.

(** [name in results_index.keys()] for a string: it equals string keys of
    the same text and no other JSON value. *)
Definition in_keys (name : string) (results_index : list (json * json)) : bool :=
  existsb (fun item => match fst item with
                       | JStr k => String.eqb k name
                       | _ => false
                       end) results_index.

(** The signals for which there is no score yet. *)
Definition unscored (results_index : list (json * json)) (records : list record)
  : list record :=
  filter (fun r => negb (in_keys (signal r) results_index)) records.

(** The records this run works on: the unscored ones, then the shard
    [[batch - 1 :: n_batches]] of those. *)
Definition select_records (cfg : DictConfig) (results_index : list (json * json))
  (records : list record) : result (list record) :=
  let records := unscored results_index records in
  Slice.from_step records (batch (compute_haspi cfg) - 1)%Z
                  (n_batches (compute_haspi cfg)).

(** The body of the loop over the selected records. *)
Definition score_and_append (cfg : DictConfig) (results_file : string)
  (r : record) : M unit :=
  let signal_name := signal r in
  (if set_random_seed (compute_haspi cfg)
   then set_seed_with_string signal_name else ret tt) ;;;
  (fun w => (Ok tt, emit (Scoring signal_name) w)) ;;;
  haspi <- compute_haspi_for_signal signal_name (path cfg) ;;
  write_jsonl results_file [result_record signal_name haspi].

Definition run_calculate_haspi (cfg : DictConfig) : M unit :=
  let dataset_filename :=
    path_join (metadata_dir (path cfg)) (dataset cfg ++ ".json") in
  records <- load_manifest dataset_filename ;;
  let results_file := results_file_name cfg in
  present <- file_exists results_file ;;
  results <- (if present : bool then read_jsonl results_file else ret []) ;;
  results_index <- lift (build_results_index results) ;;
  records <- lift (select_records cfg results_index records) ;;
  for_each (score_and_append cfg results_file) records.

(** *** Reading a run *)

(** The line logged for a signal and its score. *)
Definition result_line (scored : string * float) : string :=
  json_dumps (result_record (fst scored) (snd scored)).

(** What a run shows while it scores the given signals one after the
    other: for each, the start of its computation, then its line. *)
Definition scoring_events (results_file : string)
  (scored : list (string * float)) : list event :=
  flat_map (fun d => [Scoring (fst d); Appended results_file (result_line d)])
           scored.

(** The key under which the driver indexes a line of the log. *)
Definition logged_signal (line : string) : result json :=
  match json_loads line with
  | Ok j => getitem j "signal"
  | Raise e => Raise e
  end.

(** The log holds a record for the signal. *)
Definition logged (w : world) (results_file signal_name : string) : Prop :=
  exists line, In line (log_lines w results_file)
               /\ logged_signal line = Ok (JStr signal_name).

(** Two worlds that differ in the state of the generator at most. *)
Definition same_but_rng (w w' : world) : Prop :=
  manifests w' = manifests w /\ json_files w' = json_files w
  /\ wav_files w' = wav_files w /\ text_files w' = text_files w
  /\ trace w' = trace w.

(** Code that changes the state of the generator at most. *)
Definition quiet {A} (m : M A) : Prop :=
  forall w, same_but_rng w (snd (m w)).

(** The world [w'] of a run that started in [w], scored the signals
    [scored] and logged them in [results_file], and was last seen doing
    [inflight]: the log grew by their lines, the events are theirs, and no
    other file changed. *)
Definition grown_by (results_file : string) (scored : list (string * float))
  (inflight : list event) (w w' : world) : Prop :=
  log_lines w' results_file
  = (log_lines w results_file ++ map result_line scored)%list
  /\ trace w' = (trace w ++ scoring_events results_file scored ++ inflight)%list
  /\ manifests w' = manifests w /\ json_files w' = json_files w
  /\ wav_files w' = wav_files w
  /\ forall f, f <> results_file -> text_files w' f = text_files w f.

End Script.

(** ** A small concrete setting

    Stand-ins for the libraries and a handful of files, on which the script
    can be run by evaluation. *)

Module Demo.

(** The double quote character, as a string. *)
Definition dq : string := String (ascii_of_nat 34) EmptyString.

(** A 16-byte stand-in for the digest. *)
Definition digest (message : list byte) : list byte :=
  firstn 16 (message ++ repeat x2a 16)%list.

Lemma digest_size message : List.length (digest message) = 16%nat.
Proof.
  unfold digest. rewrite firstn_length_le; [reflexivity|].
  rewrite length_app, repeat_length. lia.
Qed.

(** The scorer stand-in gives every signal the score one half and leaves
    the generator alone. *)
Definition scorer (args : haspi_args) (st : Z) : result float * Z :=
  (Ok 0.5%float, st).

Definition repr_float (x : float) : string :=
  if PrimFloat.eqb x 0.5%float then "0.5" else "NaN".

(** The codec stand-in writes a result record the way [json.dumps] does and
    reads such a line back. *)
Definition dumps (j : json) : string :=
  match getitem j "signal", getitem j "haspi" with
  | Ok (JStr s), Ok (JFloat x) =>
      "{" ++ dq ++ "signal" ++ dq ++ ": " ++ dq ++ s ++ dq ++ ", "
          ++ dq ++ "haspi" ++ dq ++ ": " ++ repr_float x ++ "}"
  | _, _ => "null"
  end.

Fixpoint strip_prefix (prefix text : string) : option string :=
  match prefix, text with
  | EmptyString, _ => Some text
  | String p prefix', String c text' =>
      if Ascii.eqb p c then strip_prefix prefix' text' else None
  | String _ _, EmptyString => None
  end.

Fixpoint until_quote (text : string) : option (string * string) :=
  match text with
  | EmptyString => None
  | String c rest =>
      if Ascii.eqb c (ascii_of_nat 34) then Some (EmptyString, rest)
      else match until_quote rest with
           | Some (s, rest') => Some (String c s, rest')
           | None => None
           end
  end.

Definition loads (line : string) : result json :=
  match strip_prefix ("{" ++ dq ++ "signal" ++ dq ++ ": " ++ dq) line with
  | Some rest =>
      match until_quote rest with
      | Some (s, rest') =>
          match strip_prefix (", " ++ dq ++ "haspi" ++ dq ++ ": ") rest' with
          | Some "0.5}" => Ok (result_record s 0.5%float)
          | Some "NaN}" => Ok (result_record s PrimFloat.nan)
          | _ => Raise (JSONDecodeError "Expecting value")
          end
      | None => Raise (JSONDecodeError "Unterminated string")
      end
  | None => Raise (JSONDecodeError "Expecting value")
  end.

#[export] Instance externals : Externals := {|
  rng_state := Z;
  md5 := digest;
  md5_digest_size := digest_size;
  mt_seed := fun seed => seed;
  rng_draw := fun st => (st, (st * 1103515245 + 12345) mod 2 ^ 31)%Z;
  haspi_v2_be := scorer;
  json_dumps := dumps;
  json_loads := loads
|}.

Definition audiogram : json :=
  JObj [("audiogram_cfs", JArr [JInt 250; JInt 1000; JInt 4000]);
        ("audiogram_levels_l", JArr [JInt 10; JInt 20; JInt 40]);
        ("audiogram_levels_r", JArr [JInt 15; JInt 25; JInt 45])].

Definition stereo (fs : Z) : wav :=
  {| rate := fs; data := Arr2 [[0; 16384; -32768]; [32767; -1; 8192]]%Z |}.

Definition mono (fs : Z) : wav :=
  {| rate := fs; data := Arr1 [0; 16384; -32768]%Z |}.

Definition a : record := {| signal := "S1_L1_E1"; other_fields := [] |}.
Definition b : record := {| signal := "S2_L1_E1"; other_fields := [] |}.
Definition c : record := {| signal := "S3_L1_E1"; other_fields := [] |}.

Definition lookup {A} (table : list (string * A)) (name : string) : option A :=
  assoc name table.

(** Scenes S1..S3 are stereo at 44100 Hz; scene S8 has a processed signal
    at another rate; scene S9 is mono. *)
Definition wavs : list (string * wav) :=
  [("signals/S1_L1_E1.wav", stereo 44100); ("scenes/S1_target_ref.wav", stereo 44100);
   ("signals/S2_L1_E1.wav", stereo 44100); ("scenes/S2_target_ref.wav", stereo 44100);
   ("signals/S3_L1_E1.wav", stereo 44100); ("scenes/S3_target_ref.wav", stereo 44100);
   ("signals/S8_L1_E1.wav", stereo 16000); ("scenes/S8_target_ref.wav", stereo 44100);
   ("signals/S9_L1_E1.wav", mono 44100); ("scenes/S9_target_ref.wav", mono 44100)]%Z.

Definition paths : path_config :=
  {| metadata_dir := "metadata"; signal_dir := "signals"; scene_dir := "scenes" |}.

Definition config (name : string) (b n : Z) : DictConfig :=
  {| dataset := name; path := paths;
     compute_haspi := {| batch := b; n_batches := n; set_random_seed := true |} |}.

(** The files: two manifests and no results log yet. *)
Definition fresh : world :=
  {| manifests := lookup [("metadata/abc.json", [a; b; c]);
                          ("metadata/twice.json", [a; a])];
     json_files := lookup [("metadata/listeners.json", JObj [("L1", audiogram)])];
     wav_files := lookup wavs;
     text_files := fun _ => None;
     np_random := 0%Z;
     trace := [] |}.

(** The same files after an earlier run logged the score of [a]. *)
Definition resumed (log : string) : world :=
  set_text_file log [dumps (result_record "S1_L1_E1" 0.5%float)] fresh.

End Demo.

(** ** The turns of the loop *)

Section ScriptTurns.

Context {E : Externals}.

(** The world in which the score of a record is computed in its turn of
    the loop: after the seeding, when it is asked for. *)
Definition before_scoring (cfg : DictConfig) (r : record) (w : world) : world :=
  emit (Scoring (signal r))
       (snd ((if set_random_seed (compute_haspi cfg)
              then set_seed_with_string (signal r) else ret tt) w)).

(** [scored] lists, for each of the records in turn, its signal name and
    the score that [compute_haspi_for_signal] returns in the world of its
    turn, the loop having run over the records before it. *)
Fixpoint scored_in_turn (cfg : DictConfig) (results_file : string)
  (records : list record) (w : world) (scored : list (string * float)) : Prop :=
  match records, scored with
  | [], [] => True
  | r :: rest, (name, haspi) :: scored' =>
      name = signal r
      /\ fst (compute_haspi_for_signal (signal r) (path cfg)
                                       (before_scoring cfg r w))
         = Ok haspi
      /\ scored_in_turn cfg results_file rest
                        (snd (score_and_append cfg results_file r w)) scored'
  | _, _ => False
  end.

End ScriptTurns.

(** ** What the computation of a score reads *)

Section ScriptReads.

Context {E : Externals}.

(** Two worlds with the same metadata, the same WAV files and the same
    state of the generator. *)
Definition same_inputs (w1 w2 : world) : Prop :=
  json_files w1 = json_files w2 /\ wav_files w1 = wav_files w2
  /\ np_random w1 = np_random w2.

(** Code whose outcome and whose effect on those depend on nothing else. *)
Definition reads_inputs_only {A} (m : M A) : Prop :=
  forall w1 w2, same_inputs w1 w2 ->
    fst (m w1) = fst (m w2) /\ same_inputs (snd (m w1)) (snd (m w2)).

End ScriptReads.

(** ** More files for the concrete setting *)

Module Cases.

(** The files of [Demo.fresh] with an empty manifest beside the others. *)
Definition with_empty_manifest : world :=
  {| manifests := Demo.lookup [("metadata/abc.json", [Demo.a; Demo.b; Demo.c]);
                               ("metadata/empty.json", [])];
     json_files := json_files Demo.fresh;
     wav_files := wav_files Demo.fresh;
     text_files := text_files Demo.fresh;
     np_random := np_random Demo.fresh;
     trace := trace Demo.fresh |}.

(** The files of [Demo.fresh] with a log whose second line is no JSON. *)
Definition garbled (log : string) : world :=
  set_text_file log [Demo.dumps (result_record "S1_L1_E1" 0.5%float);
                     "S2_L1_E1 0.5"] Demo.fresh.

(** A configuration like [Demo.config] that does not seed the generator. *)
Definition unseeded (name : string) (b n : Z) : DictConfig :=
  {| dataset := name; path := Demo.paths;
     compute_haspi := {| batch := b; n_batches := n; set_random_seed := false |} |}.

(** A record whose files are mono in [Demo.fresh]. *)
Definition s9 : record := {| signal := "S9_L1_E1"; other_fields := [] |}.

(** The files of [Demo.fresh] with a manifest whose second signal has mono
    files. *)
Definition with_mono_scene : world :=
  {| manifests := Demo.lookup [("metadata/a9c.json", [Demo.a; s9; Demo.c])];
     json_files := json_files Demo.fresh;
     wav_files := wav_files Demo.fresh;
     text_files := text_files Demo.fresh;
     np_random := np_random Demo.fresh;
     trace := trace Demo.fresh |}.

(** The world [w] after the files of scene S9 were replaced by stereo
    ones; the manifests, the metadata and the text files stay. *)
Definition repaired (w : @world Demo.externals) : @world Demo.externals :=
  {| manifests := manifests w;
     json_files := json_files w;
     wav_files := Demo.lookup (("signals/S9_L1_E1.wav", Demo.stereo 44100)
                               :: ("scenes/S9_target_ref.wav", Demo.stereo 44100)
                               :: Demo.wavs);
     text_files := text_files w;
     np_random := np_random w;
     trace := trace w |}.

End Cases.

(** ** Positions by residue *)

(** The positions below [len] that leave the remainder [r] modulo [n], in
    increasing order. *)
Definition residue_class (n r : Z) (len : nat) : list Z :=
  filter (fun p => (p mod n =? r)%Z) (map Z.of_nat (seq 0 len)).

(** ** Checking a range of samples by evaluation *)

(** [f] holds at each of the [p] integers from [base] on. *)
Fixpoint all_from (p : positive) (f : Z -> bool) (base : Z) : bool :=
  match p with
  | xH => f base
  | xO q => all_from q f base && all_from q f (base + Z.pos q)%Z
  | xI q => all_from q f base && all_from q f (base + Z.pos q)%Z
            && f (base + Z.pos q + Z.pos q)%Z
  end.

(** The normalised sample is the finite float of value [sample / 32768],
    within [-1, 1]. *)
Definition normalized_exactly (sample : Z) : bool :=
  match float_value (normalize sample) with
  | Some q => Qeq_bool q (sample # 32768)
              && Qle_bool (- (1)) q && Qle_bool q 1
  | None => false
  end.

(** * Properties *)

(** ** Splitting and joining *)

Module StrFacts.
Import Str.

(** The split of the empty string, of a string without separator, and
    around separators that touch. *)
Example split_examples :
  split "_" EmptyString = [EmptyString]
  /\ split "_" "S0001" = ["S0001"]
  /\ split "_" "a__b_" = ["a"; EmptyString; "b"; EmptyString].
Proof. repeat split. Qed.

Lemma is_empty_true s : is_empty s = true <-> s = EmptyString.
Proof. destruct s; simpl; split; congruence. Qed.

Lemma is_empty_false s : is_empty s = false <-> s <> EmptyString.
Proof. destruct s; simpl; split; congruence. Qed.

Lemma append_assoc (a b c : string) : ((a ++ b) ++ c = a ++ (b ++ c))%string.
Proof. induction a as [|ch a IH]; simpl; [reflexivity|]. now rewrite IH. Qed.

Lemma split_cons sep s : exists seg segs, split sep s = seg :: segs.
Proof.
  destruct s as [|c rest]; simpl; [now eexists _, _|].
  destruct (Ascii.eqb c sep); [now eexists _, _|].
  destruct (split sep rest); now eexists _, _.
Qed.

(** Joining the segments of a split gives the string back. *)
Lemma join_split (sep : ascii) (s : string) :
  join (String sep EmptyString) (split sep s) = s.
Proof.
  induction s as [|c rest IH]; simpl; [reflexivity|].
  destruct (split_cons sep rest) as (seg & segs & Hsplit).
  rewrite Hsplit in *.
  destruct (Ascii.eqb_spec c sep) as [->|_];
    destruct segs; simpl in *; now rewrite IH.
Qed.

(** A string without the separator is a single segment. *)
Lemma split_no_sep sep s : contains sep s = false -> split sep s = [s].
Proof.
  induction s as [|c rest IH]; simpl; [reflexivity|].
  intros H. apply orb_false_iff in H as [Hc Hrest].
  now rewrite Hc, (IH Hrest).
Qed.

(** A separator-free segment in front of a separator is the first segment. *)
Lemma split_app sep seg s :
  contains sep seg = false ->
  split sep (seg ++ String sep s) = seg :: split sep s.
Proof.
  induction seg as [|c rest IH]; simpl.
  - intros _. now rewrite Ascii.eqb_refl.
  - intros H. apply orb_false_iff in H as [Hc Hrest].
    now rewrite Hc, (IH Hrest).
Qed.

(** Splitting a join of separator-free segments gives the segments back. *)
Lemma split_join sep seg segs :
  Forall (fun p => contains sep p = false) (seg :: segs) ->
  split sep (join (String sep EmptyString) (seg :: segs)) = seg :: segs.
Proof.
  revert seg. induction segs as [|p ps IH]; intros seg H.
  - simpl. apply split_no_sep. now inversion H.
  - inversion H as [|? ? Hseg Hrest]; subst.
    change (join (String sep EmptyString) (seg :: p :: ps))
      with (seg ++ String sep (join (String sep EmptyString) (p :: ps))).
    rewrite split_app by assumption. now rewrite IH.
Qed.

End StrFacts.

(** ** The parser *)

(** What the parser does, read off the segments of the name. *)
Lemma parse_by_segments name :
  match Str.split "_" name with
  | scene :: listener :: tag :: tags =>
      if Str.is_empty scene || Str.is_empty listener
      then exists msg, parse_cec2_signal_name name = Raise (ValueError msg)
      else parse_cec2_signal_name name
           = Ok (scene, listener, Str.join "_" (tag :: tags))
  | _ => exists msg, parse_cec2_signal_name name = Raise (ValueError msg)
  end.
Proof.
  unfold parse_cec2_signal_name.
  destruct (Str.split "_" name) as [|scene [|listener [|tag tags]]];
    try (eexists; reflexivity).
  - rewrite orb_true_r. eexists; reflexivity.
  - rewrite orb_false_r.
    destruct (Str.is_empty scene || Str.is_empty listener);
      [eexists|]; reflexivity.
Qed.

(** C2, as the code has it: a name [S_L_T1_T2...] of at least three
    separator-free segments whose first two, [S] and [L], are not empty
    parses to scene [S], listener [L] and system [T1_T2...]; and the parser
    raises ValueError exactly on the names with fewer than three segments or
    with an empty scene or listener segment.  (An empty segment among the
    system tags is accepted.) *)
Theorem parse_cec2_signal_name_spec :
  (forall scene listener tag tags,
      scene <> EmptyString -> listener <> EmptyString ->
      Forall (fun p => Str.contains "_" p = false)
             (scene :: listener :: tag :: tags) ->
      parse_cec2_signal_name (Str.join "_" (scene :: listener :: tag :: tags))
      = Ok (scene, listener, Str.join "_" (tag :: tags)))
  /\
  (forall name,
      let segments := Str.split "_" name in
      (List.length segments < 3)%nat
      \/ nth 0 segments EmptyString = EmptyString
      \/ nth 1 segments EmptyString = EmptyString
      <-> exists msg, parse_cec2_signal_name name = Raise (ValueError msg)).
Proof.
  split.
  - intros scene listener tag tags Hs Hl Hsep.
    pose proof (parse_by_segments
                  (Str.join "_" (scene :: listener :: tag :: tags))) as H.
    rewrite StrFacts.split_join in H by assumption.
    apply StrFacts.is_empty_false in Hs, Hl. now rewrite Hs, Hl in H.
  - intros name segments. subst segments.
    pose proof (parse_by_segments name) as H.
    destruct (Str.split "_" name) as [|scene [|listener [|tag tags]]];
      simpl; try (split; [intros _; exact H | intros _; left; lia]).
    destruct (Str.is_empty scene) eqn:Hs; simpl in H.
    + split; [intros _; exact H|].
      intros _. right; left. now apply StrFacts.is_empty_true.
    + destruct (Str.is_empty listener) eqn:Hl.
      * split; [intros _; exact H|].
        intros _. right; right. now apply StrFacts.is_empty_true.
      * apply StrFacts.is_empty_false in Hs, Hl.
        split.
        -- intros [Hlen|[Hnil|Hnil]]; [lia|contradiction|contradiction].
        -- intros [msg Hmsg]. congruence.
Qed.

(** The parser at the name of the docstring. *)
Lemma parse_cec2_signal_name_spec_witness :
  parse_cec2_signal_name "S0001_L0001_E001_hr" = Ok ("S0001", "L0001", "E001_hr").
Proof.
  apply (proj1 parse_cec2_signal_name_spec "S0001" "L0001" "E001" ["hr"]);
    [discriminate | discriminate | repeat constructor].
Defined.

(** C2 as stated fails: a name with an empty segment after the listener is
    parsed, not refused. *)
Lemma parse_accepts_empty_system_segment :
  In EmptyString (Str.split "_" "S0001_L0001_")
  /\ parse_cec2_signal_name "S0001_L0001_" = Ok ("S0001", "L0001", EmptyString)
  /\ In EmptyString (Str.split "_" "S0001_L0001__hr")
  /\ parse_cec2_signal_name "S0001_L0001__hr" = Ok ("S0001", "L0001", "_hr").
Proof. vm_compute. intuition. Qed.

(** C10: when the parser returns (scene, listener, system), the name is
    scene, listener and system joined by underscores again. *)
Theorem parse_is_lossless name scene listener system :
  parse_cec2_signal_name name = Ok (scene, listener, system) ->
  scene ++ "_" ++ listener ++ "_" ++ system = name.
Proof.
  intros H. pose proof (parse_by_segments name) as Hseg.
  pose proof (StrFacts.join_split "_" name) as Hjoin.
  destruct (Str.split "_" name) as [|s [|l [|tag tags]]];
    try (destruct Hseg as [msg Hmsg]; congruence).
  destruct (Str.is_empty s || Str.is_empty l).
  - destruct Hseg as [msg Hmsg]; congruence.
  - rewrite Hseg in H. injection H as <- <- <-. exact Hjoin.
Qed.

Lemma parse_is_lossless_witness :
  "S0001" ++ "_" ++ "L0001" ++ "_" ++ "E001_hr" = "S0001_L0001_E001_hr".
Proof.
  apply (parse_is_lossless "S0001_L0001_E001_hr" "S0001" "L0001" "E001_hr").
  reflexivity.
Defined.

(** ** Normalisation of 16-bit samples *)

Lemma all_from_spec p f : forall base z,
  all_from p f base = true ->
  (base <= z < base + Z.pos p)%Z -> f z = true.
Proof.
  induction p as [q IH|q IH|]; simpl; intros base z Hall Hz.
  - apply andb_true_iff in Hall as [Hall Hlast].
    apply andb_true_iff in Hall as [Hlo Hhi].
    destruct (Z_lt_ge_dec z (base + Z.pos q)) as [Hlt|Hge].
    + apply (IH base); [assumption|lia].
    + destruct (Z_lt_ge_dec z (base + Z.pos q + Z.pos q)) as [Hlt'|Hge'].
      * apply (IH (base + Z.pos q)%Z); [assumption|lia].
      * replace z with (base + Z.pos q + Z.pos q)%Z by lia. assumption.
  - apply andb_true_iff in Hall as [Hlo Hhi].
    destruct (Z_lt_ge_dec z (base + Z.pos q)) as [Hlt|Hge].
    + apply (IH base); [assumption|lia].
    + apply (IH (base + Z.pos q)%Z); [assumption|lia].
  - replace z with base by lia. assumption.
Qed.

Lemma int16_normalized_exactly :
  all_from 65536 normalized_exactly (-32768) = true.
Proof. vm_compute. reflexivity. Qed.

(** C9: for a 16-bit sample s, [s / 32768.0] is the float whose value is
    exactly s/32768, and it lies in [-1, 1]. *)
Theorem normalize_int16 (sample : Z) :
  (-32768 <= sample <= 32767)%Z ->
  exists q : Q,
    float_value (normalize sample) = Some q
    /\ (q == sample # 32768)%Q
    /\ (- (1) <= q <= 1)%Q.
Proof.
  intros Hrange.
  assert (Hok : normalized_exactly sample = true).
  { apply (all_from_spec 65536 normalized_exactly (-32768));
      [exact int16_normalized_exactly | lia]. }
  unfold normalized_exactly in Hok.
  destruct (float_value (normalize sample)) as [q|]; [|discriminate].
  apply andb_true_iff in Hok as [Hok Hle1].
  apply andb_true_iff in Hok as [Heq Hle0].
  exists q. split; [reflexivity|]. split.
  - now apply Qeq_bool_iff.
  - split; now apply Qle_bool_iff.
Qed.

Lemma normalize_int16_witness :
  exists q : Q,
    float_value (normalize (-32768)) = Some q
    /\ (q == (-32768) # 32768)%Q
    /\ (- (1) <= q <= 1)%Q.
Proof. apply (normalize_int16 (-32768)). lia. Defined.

(** ** Seeding *)

Module HexFacts.
Import Hex.

Lemma value_digit n : (n < 16)%N -> value (digit n) = Some (Z.of_N n).
Proof.
  intros H.
  assert (Hcases : In n [0; 1; 2; 3; 4; 5; 6; 7; 8; 9; 10; 11; 12; 13; 14; 15]%N).
  { simpl. lia. }
  simpl in Hcases.
  repeat (destruct Hcases as [<-|Hcases]; [reflexivity|]).
  contradiction.
Qed.

(** Reading a hex digest back gives the big-endian number of its bytes. *)
Lemma parse_hexdigest digest : forall acc,
  parse_from acc (hexdigest digest) = Ok (be_value acc digest).
Proof.
  induction digest as [|b rest IH]; intros acc;
    cbn [hexdigest parse_from be_value]; [reflexivity|].
  pose proof (Byte.to_N_bounded b) as Hb.
  set (n := Byte.to_N b) in *. clearbody n.
  rewrite (value_digit (n / 16)) by (apply N.Div0.div_lt_upper_bound; lia).
  rewrite (value_digit (n mod 16)) by (apply N.mod_lt; lia).
  rewrite IH. do 2 f_equal.
  rewrite N2Z.inj_div, N2Z.inj_mod. change (Z.of_N 16) with 16%Z.
  pose proof (Z.div_mod (Z.of_N n) 16). lia.
Qed.

Lemma int16_hexdigest digest :
  digest <> [] -> int16 (hexdigest digest) = Ok (be_value 0 digest).
Proof.
  destruct digest as [|b rest]; [congruence|]. intros _.
  exact (parse_hexdigest (b :: rest) 0%Z).
Qed.

End HexFacts.

Section SeedingFacts.

Context {E : Externals}.

Lemma md5_int_ok s :
  md5_int s = Ok (Hex.be_value 0 (md5 (list_byte_of_string s))).
Proof.
  unfold md5_int. apply HexFacts.int16_hexdigest.
  intros Hnil. pose proof (md5_digest_size (list_byte_of_string s)) as Hsize.
  rewrite Hnil in Hsize. discriminate.
Qed.

Lemma seed_of_string_range s : (0 <= seed_of_string s < 10 ^ 8)%Z.
Proof. unfold seed_of_string. apply Z.mod_pos_bound. reflexivity. Qed.

(** Seeding never raises, and overwrites the generator with the state of
    the string's seed. *)
Lemma set_seed_with_string_eq s w :
  set_seed_with_string s w
  = (Ok tt, set_np_random (mt_seed (seed_of_string s)) w).
Proof.
  unfold set_seed_with_string, bind, lift, np_random_seed.
  rewrite md5_int_ok. fold (seed_of_string s).
  pose proof (seed_of_string_range s) as Hrange.
  assert (Hlt : (10 ^ 8 < 2 ^ 32)%Z) by reflexivity.
  destruct (Z.leb_spec 0 (seed_of_string s)); [|lia].
  destruct (Z.ltb_spec (seed_of_string s) (2 ^ 32)); [|lia].
  reflexivity.
Qed.

(** C5: seeding with a string succeeds and leaves the generator in the
    state of the string's seed, whatever the generator held before; two runs
    seeded with the same string draw the same numbers from there on. *)
Theorem set_seed_with_string_deterministic (s : string) (w1 w2 : world) :
  let run1 := set_seed_with_string s w1 in
  let run2 := set_seed_with_string s w2 in
  fst run1 = Ok tt /\ fst run2 = Ok tt
  /\ (0 <= seed_of_string s < 10 ^ 8)%Z
  /\ np_random (snd run1) = mt_seed (seed_of_string s)
  /\ np_random (snd run2) = np_random (snd run1)
  /\ forall n, draws n (np_random (snd run2)) = draws n (np_random (snd run1)).
Proof.
  cbv zeta. rewrite !set_seed_with_string_eq. simpl.
  repeat split; auto using seed_of_string_range;
    apply seed_of_string_range.
Qed.

End SeedingFacts.

(** ** Sharding *)

Module SliceFacts.
Import Slice.

Local Open Scope Z_scope.

(** Slices with a start before the front, past the end, or counted from
    the end, and with a negative step, as Python gives them. *)
Example from_step_examples :
  let l := [0; 1; 2; 3; 4; 5; 6] in
  from_step l 1 2 = Ok [1; 3; 5]
  /\ from_step l (-2) 3 = Ok [5]
  /\ from_step l (-10) 4 = Ok [0; 4]
  /\ from_step l 7 2 = Ok []
  /\ from_step l (-2) (-3) = Ok [5; 2]
  /\ from_step l 10 (-2) = Ok [6; 4; 2; 0]
  /\ from_step l 0 0 = Raise (ValueError "slice step cannot be zero").
Proof. repeat split. Qed.

(** The quotient that counts the positions of a shard. *)
Lemma shifted_quotient b n L :
  1 <= b <= n -> 0 <= L ->
  (L - b + n) / n = L / n + (if b <=? L mod n then 1 else 0).
Proof.
  intros Hb HL.
  pose proof (Z.div_mod L n ltac:(lia)) as Hdm.
  pose proof (Z.mod_pos_bound L n ltac:(lia)) as Hm.
  destruct (Z.leb_spec b (L mod n)).
  - symmetry. apply (Z.div_unique _ _ _ (L mod n - b)); lia.
  - symmetry. apply (Z.div_unique _ _ _ (L mod n - b + n)); lia.
Qed.

(** Shard [b] of [n] starts at [b - 1] and steps by [n]. *)
Lemma positions_shard len b n :
  1 <= b <= n -> 0 <= len ->
  positions len (b - 1) n
  = map (fun i => b - 1 + Z.of_nat i * n)
        (seq 0 (Z.to_nat ((len - b + n) / n))).
Proof.
  intros Hb Hlen. unfold positions, adjust_start, default_stop, length.
  destruct (Z.ltb_spec (b - 1) 0); [lia|].
  destruct (Z.ltb_spec n 0); [lia|].
  destruct (Z.leb_spec len (b - 1)).
  - rewrite Z.ltb_irrefl. rewrite Z.div_small by lia. reflexivity.
  - destruct (Z.ltb_spec (b - 1) len); [|lia].
    replace (len - b + n) with ((len - (b - 1) - 1) + 1 * n) by lia.
    rewrite Z.div_add by lia. reflexivity.
Qed.

(** The arithmetic progression of a shard is the residue class of its
    start. *)
Lemma progression_is_residue_class b n (len : nat) :
  1 <= b <= n ->
  map (fun i => b - 1 + Z.of_nat i * n)
      (seq 0 (Z.to_nat ((Z.of_nat len - b + n) / n)))
  = residue_class n (b - 1) len.
Proof.
  intros Hb. unfold residue_class.
  induction len as [|len IH].
  - simpl. rewrite Z.div_small by lia. reflexivity.
  - rewrite seq_S, map_app, filter_app, <- IH. clear IH.
    cbn [map filter Nat.add].
    set (L := Z.of_nat len).
    pose proof (Z.div_mod L n ltac:(lia)) as Hdm.
    pose proof (Z.mod_pos_bound L n ltac:(lia)) as Hm.
    assert (HL : 0 <= L) by (unfold L; lia).
    assert (Hq : 0 <= L / n) by (apply Z.div_pos; lia).
    replace (Z.of_nat (S len) - b + n) with ((L + 1) - b + n) by (unfold L; lia).
    rewrite (shifted_quotient b n L) by lia.
    assert (Hnext : (L + 1 - b + n) / n
                    = L / n + (if b - 1 <=? L mod n then 1 else 0)).
    { pose proof (Z.div_mod (L + 1) n ltac:(lia)) as Hdm'.
      destruct (Z.leb_spec (b - 1) (L mod n)).
      - symmetry. apply (Z.div_unique _ _ _ (L mod n - (b - 1))); lia.
      - symmetry. apply (Z.div_unique _ _ _ (L mod n + 1 - b + n)); lia. }
    rewrite Hnext.
    destruct (Z.eqb_spec (L mod n) (b - 1)) as [Heq|Hne].
    + destruct (Z.leb_spec b (L mod n)); [lia|].
      destruct (Z.leb_spec (b - 1) (L mod n)); [|lia].
      rewrite Z.add_0_r.
      rewrite Z2Nat.inj_add by lia. change (Z.to_nat 1) with 1%nat.
      rewrite Nat.add_1_r, seq_S, map_app. cbn [map Nat.add].
      do 2 f_equal. rewrite Z2Nat.id by lia. lia.
    + destruct (Z.leb_spec b (L mod n));
        destruct (Z.leb_spec (b - 1) (L mod n)); try lia;
        now rewrite app_nil_r.
Qed.

(** [l[b - 1 :: n]] is the items of [l] at the positions that leave the
    remainder [b - 1] modulo [n], in order. *)
Lemma from_step_shard {A} (l : list A) b n :
  1 <= b <= n ->
  from_step l (b - 1) n
  = Ok (pick l (residue_class n (b - 1) (List.length l))).
Proof.
  intros Hb. unfold from_step.
  destruct (Z.eqb_spec n 0); [lia|].
  rewrite positions_shard by lia.
  now rewrite progression_is_residue_class.
Qed.

Lemma in_residue_class n r len p :
  In p (residue_class n r len) <-> (0 <= p < Z.of_nat len /\ p mod n = r).
Proof.
  unfold residue_class. rewrite filter_In, in_map_iff, Z.eqb_eq.
  split.
  - intros [(i & <- & Hi) Hr]. apply in_seq in Hi. split; [lia|assumption].
  - intros [Hp Hr]. split; [|assumption].
    exists (Z.to_nat p). split; [lia|]. apply in_seq. lia.
Qed.

(** Each position below [len] belongs to the residue class of exactly one
    shard of [n]. *)
Lemma one_shard_per_position n len p :
  1 <= n -> 0 <= p < Z.of_nat len ->
  exists! b, 1 <= b <= n /\ In p (residue_class n (b - 1) len).
Proof.
  intros Hn Hp.
  pose proof (Z.mod_pos_bound p n ltac:(lia)) as Hm.
  exists (p mod n + 1). split.
  - split; [lia|]. apply in_residue_class. split; [assumption|lia].
  - intros b' [Hb' Hin]. apply in_residue_class in Hin. lia.
Qed.

End SliceFacts.

(** ** The driver: what a run leaves behind *)

Section DriverFacts.

Context {E : Externals}.

Local Open Scope list_scope.

Lemma same_but_rng_refl w : same_but_rng w w.
Proof. repeat split. Qed.

Lemma same_but_rng_trans w1 w2 w3 :
  same_but_rng w1 w2 -> same_but_rng w2 w3 -> same_but_rng w1 w3.
Proof.
  unfold same_but_rng. intros (? & ? & ? & ? & ?) (? & ? & ? & ? & ?).
  repeat split; congruence.
Qed.

Lemma quiet_ret {A} (a : A) : quiet (ret a).
Proof. intros w. apply same_but_rng_refl. Qed.

Lemma quiet_lift {A} (r : result A) : quiet (lift r).
Proof. intros w. apply same_but_rng_refl. Qed.

Lemma quiet_bind {A B} (m : M A) (k : A -> M B) :
  quiet m -> (forall a, quiet (k a)) -> quiet (bind m k).
Proof.
  intros Hm Hk w. unfold bind. specialize (Hm w).
  destruct (m w) as [[a|e] w']; simpl in *; [|assumption].
  eapply same_but_rng_trans; [eassumption|apply Hk].
Qed.

Lemma quiet_json_load f : quiet (json_load f).
Proof.
  intros w. unfold json_load.
  destruct (json_files w f); apply same_but_rng_refl.
Qed.

Lemma quiet_wavfile_read f : quiet (wavfile_read f).
Proof.
  intros w. unfold wavfile_read.
  destruct (wav_files w f); apply same_but_rng_refl.
Qed.

Lemma quiet_assert b : quiet (assert b).
Proof. intros w. unfold assert. destruct b; apply same_but_rng_refl. Qed.

Lemma quiet_call_haspi_v2_be args : quiet (call_haspi_v2_be args).
Proof.
  intros w. unfold call_haspi_v2_be.
  destruct (haspi_v2_be args (np_random w)). repeat split.
Qed.

Lemma quiet_set_seed_with_string s : quiet (set_seed_with_string s).
Proof. intros w. rewrite set_seed_with_string_eq. repeat split. Qed.

Ltac quiet_step :=
  first [ apply quiet_ret | apply quiet_lift | apply quiet_json_load
        | apply quiet_wavfile_read | apply quiet_assert
        | apply quiet_call_haspi_v2_be
        | apply quiet_bind; [|intros] ].

Lemma quiet_compute_haspi_for_signal name path :
  quiet (compute_haspi_for_signal name path).
Proof.
  unfold compute_haspi_for_signal.
  repeat (quiet_step; repeat match goal with
                             | x : (_ * _)%type |- _ => destruct x
                             end).
Qed.


Lemma log_lines_set_text_file file lines w :
  log_lines (set_text_file file lines w) file = lines.
Proof. unfold log_lines. simpl. now rewrite String.eqb_refl. Qed.

Lemma text_files_set_text_file_other file lines w f :
  f <> file -> text_files (set_text_file file lines w) f = text_files w f.
Proof. intros Hf. simpl. apply String.eqb_neq in Hf. now rewrite Hf. Qed.

Lemma grown_by_refl file w : grown_by file [] [] w w.
Proof.
  unfold grown_by. simpl. rewrite !app_nil_r. repeat split.
Qed.

Lemma grown_by_trans file s1 s2 inflight w w1 w2 :
  grown_by file s1 [] w w1 -> grown_by file s2 inflight w1 w2 ->
  grown_by file (s1 ++ s2) inflight w w2.
Proof.
  unfold grown_by, scoring_events.
  intros (Hl1 & Ht1 & Hm1 & Hj1 & Hw1 & Hf1) (Hl2 & Ht2 & Hm2 & Hj2 & Hw2 & Hf2).
  rewrite app_nil_r in Ht1.
  repeat split; try congruence.
  - rewrite Hl2, Hl1, map_app, app_assoc. reflexivity.
  - rewrite Ht2, Ht1, flat_map_app, !app_assoc. reflexivity.
  - intros f Hf. rewrite Hf2, Hf1 by assumption. reflexivity.
Qed.

(** A world that differs in the generator is as good a start. *)
Lemma grown_by_same_but_rng_l file scored inflight w0 w w' :
  same_but_rng w0 w -> grown_by file scored inflight w w' ->
  grown_by file scored inflight w0 w'.
Proof.
  unfold grown_by, same_but_rng, log_lines.
  intros (Hm & Hj & Hw & Ht & Htr) (Hl' & Ht' & Hm' & Hj' & Hw' & Hf').
  rewrite Ht, Htr, Hm, Hj, Hw in *. repeat split; assumption.
Qed.

(** [write_jsonl] appends one line per record and touches nothing else. *)
Lemma write_jsonl_appends file records w :
  let w' := snd (write_jsonl file records w) in
  fst (write_jsonl file records w) = Ok tt
  /\ log_lines w' file = log_lines w file ++ map json_dumps records
  /\ trace w' = trace w ++ map (fun r => Appended file (json_dumps r)) records
  /\ manifests w' = manifests w /\ json_files w' = json_files w
  /\ wav_files w' = wav_files w /\ np_random w' = np_random w
  /\ forall f, f <> file -> text_files w' f = text_files w f.
Proof.
  unfold write_jsonl. cbn [fst snd]. split; [reflexivity|].
  assert (Hstart : log_lines (set_text_file file (log_lines w file) w) file
                   = log_lines w file /\
                   forall f, f <> file ->
                     text_files (set_text_file file (log_lines w file) w) f
                     = text_files w f).
  { split; [apply log_lines_set_text_file|].
    intros f Hf. now apply text_files_set_text_file_other. }
  destruct Hstart as [Hlog Hother].
  rewrite <- Hlog at 2.
  change (trace w) with (trace (set_text_file file (log_lines w file) w)).
  change (manifests w) with (manifests (set_text_file file (log_lines w file) w)).
  change (json_files w) with (json_files (set_text_file file (log_lines w file) w)).
  change (wav_files w) with (wav_files (set_text_file file (log_lines w file) w)).
  change (np_random w) with (np_random (set_text_file file (log_lines w file) w)).
  revert Hother. generalize (set_text_file file (log_lines w file) w) as w0.
  clear Hlog.
  induction records as [|r rest IH]; intros w0 Hother; cbn [fold_left map].
  - rewrite !app_nil_r. repeat split. assumption.
  - specialize (IH (append_line file (json_dumps r) w0)).
    destruct IH as (Hl & Ht & Hm & Hj & Hw & Hr & Hf).
    + intros f Hf. unfold append_line. cbn [text_files emit].
      rewrite text_files_set_text_file_other by assumption. now apply Hother.
    + repeat split; try assumption.
      * rewrite Hl. unfold append_line at 1.
        change (log_lines (emit ?ev ?x) file) with (log_lines x file).
        rewrite log_lines_set_text_file, <- app_assoc. reflexivity.
      * rewrite Ht. unfold append_line at 1. cbn [trace emit set_text_file].
        rewrite <- app_assoc. reflexivity.
Qed.


(** One turn of the loop: either the signal is scored and its line is
    appended, or the turn raises after the computation has started and the
    log is as it was. *)
Lemma score_and_append_shape cfg file r w :
  match score_and_append cfg file r w with
  | (Ok _, w') => exists h, grown_by file [(signal r, h)] [] w w'
  | (Raise _, w') => grown_by file [] [Scoring (signal r)] w w'
  end.
Proof.
  unfold score_and_append.
  set (seeding := if set_random_seed (compute_haspi cfg)
                  then set_seed_with_string (signal r) else ret tt).
  assert (Hseed : exists w1, seeding w = (Ok tt, w1) /\ same_but_rng w w1).
  { unfold seeding. destruct (set_random_seed (compute_haspi cfg)).
    - rewrite set_seed_with_string_eq. eexists. split; [reflexivity|].
      repeat split.
    - eexists. split; [reflexivity|]. apply same_but_rng_refl. }
  destruct Hseed as (w1 & Hw1 & Hsame1).
  unfold bind at 1. rewrite Hw1. unfold bind at 1. unfold bind at 1.
  pose proof (quiet_compute_haspi_for_signal (signal r) (path cfg)
                (emit (Scoring (signal r)) w1)) as Hquiet.
  destruct (compute_haspi_for_signal (signal r) (path cfg)
              (emit (Scoring (signal r)) w1)) as [[h|e] w3];
    cbn [snd] in Hquiet;
    destruct Hquiet as (Hm & Hj & Hw & Ht & Htr);
    destruct Hsame1 as (Hm1 & Hj1 & Hw1' & Ht1 & Htr1);
    cbn [manifests json_files wav_files text_files trace emit] in *.
  - exists h.
    pose proof (write_jsonl_appends file [result_record (signal r) h] w3)
      as Happ.
    unfold write_jsonl in *. cbv zeta in Happ. cbn [fst snd] in Happ.
    match goal with
    | |- context [fold_left ?f ?l ?a] => set (w4 := fold_left f l a) in *
    end.
    destruct Happ as (_ & Hl & Htw & Hmw & Hjw & Hww & _ & Hfw).
    unfold grown_by, scoring_events, result_line. cbn [flat_map map fst snd].
    repeat split; try congruence.
    + rewrite Hl. unfold log_lines. now rewrite Ht, Ht1.
    + rewrite Htw, Htr, Htr1, !app_nil_r, <- app_assoc. reflexivity.
    + intros f Hf. rewrite Hfw by assumption. congruence.
  - unfold grown_by, scoring_events. cbn [flat_map map].
    repeat split; try congruence.
    + rewrite app_nil_r. unfold log_lines. now rewrite Ht, Ht1.
    + rewrite Htr, Htr1. reflexivity.
Qed.

(** The loop: it scores and logs a prefix of the records, one line each, in
    order; it stops at the first record whose turn raises. *)
Lemma for_each_shape cfg file records : forall w,
  exists scored inflight,
    grown_by file scored inflight w
             (snd (for_each (score_and_append cfg file) records w))
    /\ map fst scored = map signal (firstn (List.length scored) records)
    /\ match fst (for_each (score_and_append cfg file) records w) with
       | Ok _ => inflight = [] /\ List.length scored = List.length records
       | Raise _ =>
           exists r, nth_error records (List.length scored) = Some r
                     /\ inflight = [Scoring (signal r)]
       end.
Proof.
  induction records as [|r rest IH]; intros w.
  - exists [], []. cbn [for_each ret fst snd].
    split; [apply grown_by_refl | split; [reflexivity | split; reflexivity]].
  - cbn [for_each]. unfold bind.
    pose proof (score_and_append_shape cfg file r w) as Hstep.
    destruct (score_and_append cfg file r w) as [[[]|e] w1].
    + destruct Hstep as [h Hstep].
      destruct (IH w1) as (scored & inflight & Hgrown & Hnames & Hend).
      exists ((signal r, h) :: scored), inflight. split; [|split].
      * exact (grown_by_trans file [(signal r, h)] scored inflight w w1 _
                              Hstep Hgrown).
      * cbn. now rewrite Hnames.
      * destruct (fst (for_each (score_and_append cfg file) rest w1)).
        -- cbn. destruct Hend. split; [assumption|lia].
        -- exact Hend.
    + exists [], [Scoring (signal r)]. cbn [fst snd].
      split; [exact Hstep | split; [reflexivity|]].
      exists r. split; reflexivity.
Qed.


(** *** The index of the log *)

(** A signal with a readable line in the log is a key of the index. *)
Lemma index_covers_log lines : forall results index,
  map_result json_loads lines = Ok results ->
  build_results_index results = Ok index ->
  forall line name,
    In line lines -> logged_signal line = Ok (JStr name) ->
    in_keys name index = true.
Proof.
  induction lines as [|l rest IH]; intros results index Hread Hindex line name;
    [contradiction|].
  cbn [map_result] in Hread.
  destruct (json_loads l) as [j|] eqn:Hj; [|discriminate].
  destruct (map_result json_loads rest) as [js|]; [|discriminate].
  injection Hread as <-. cbn [build_results_index] in Hindex.
  destruct (getitem j "signal") as [key|] eqn:Hkey; [|discriminate].
  destruct (hashable key); [|discriminate].
  destruct (build_results_index js) as [index'|] eqn:Hindex'; [|discriminate].
  injection Hindex as <-. intros [<-|Hin] Hline.
  - unfold logged_signal in Hline. rewrite Hj, Hkey in Hline.
    injection Hline as ->. cbn. now rewrite String.eqb_refl.
  - cbn [in_keys existsb]. apply orb_true_iff. right.
    exact (IH js index' eq_refl Hindex' line name Hin Hline).
Qed.

Lemma pick_incl {A} (l : list A) ps x : In x (Slice.pick l ps) -> In x l.
Proof.
  unfold Slice.pick. rewrite in_flat_map. intros (p & _ & Hx).
  destruct (nth_error l (Z.to_nat p)) as [y|] eqn:Hy; [|contradiction].
  destruct Hx as [<-|[]]. eapply nth_error_In; eassumption.
Qed.

(** The selected records are manifest records without a line in the log. *)
Lemma selected_not_logged cfg w lines results index records selected :
  log_lines w (results_file_name cfg) = lines ->
  map_result json_loads lines = Ok results ->
  build_results_index results = Ok index ->
  select_records cfg index records = Ok selected ->
  forall r, In r selected ->
    In r records /\ ~ logged w (results_file_name cfg) (signal r).
Proof.
  intros Hlines Hread Hindex Hsel r Hr.
  unfold select_records, Slice.from_step in Hsel.
  destruct (n_batches (compute_haspi cfg) =? 0)%Z; [discriminate|].
  injection Hsel as <-. apply pick_incl in Hr.
  unfold unscored in Hr. apply filter_In in Hr as [Hin Hkey].
  split; [assumption|]. intros (line & Hline & Hsignal).
  rewrite Hlines in Hline.
  rewrite (index_covers_log lines results index Hread Hindex line _ Hline Hsignal)
    in Hkey.
  discriminate.
Qed.

(** *** The driver *)

(** Either the driver raises before the loop, leaving the world as it was,
    or it runs the loop over the records it selected. *)
Lemma run_calculate_haspi_cases cfg w :
  (exists e, run_calculate_haspi cfg w = (Raise e, w))
  \/ (exists records results index selected,
        manifests w (path_join (metadata_dir (path cfg))
                               (dataset cfg ++ ".json")%string)
        = Some records
        /\ map_result json_loads (log_lines w (results_file_name cfg))
           = Ok results
        /\ build_results_index results = Ok index
        /\ select_records cfg index records = Ok selected
        /\ run_calculate_haspi cfg w
           = for_each (score_and_append cfg (results_file_name cfg))
                      selected w).
Proof.
  unfold run_calculate_haspi, bind, load_manifest, file_exists, read_jsonl,
    lift, ret, log_lines.
  destruct (manifests w _) as [records|]; [|left; eexists; reflexivity].
  destruct (text_files w (results_file_name cfg)) as [lines|] eqn:Hfile;
    cbv beta iota; rewrite ?Hfile.
  - destruct (map_result json_loads lines) as [results|] eqn:Hread;
      [|left; eexists; reflexivity].
    destruct (build_results_index results) as [index|] eqn:Hindex;
      [|left; eexists; reflexivity].
    destruct (select_records cfg index records) as [selected|] eqn:Hsel;
      [|left; eexists; reflexivity].
    right. exists records, results, index, selected. repeat split; assumption.
  - cbn [build_results_index].
    destruct (select_records cfg [] records) as [selected|] eqn:Hsel;
      [|left; eexists; reflexivity].
    right. exists records, [], [], selected. repeat split; assumption.
Qed.

(** What a run leaves behind: the log grown by one line for each signal of a
    prefix of the selected records, in order, and nothing else changed; none
    of the selected signals had a line in the log. *)
Lemma run_calculate_haspi_shape cfg w :
  exists selected scored inflight,
    grown_by (results_file_name cfg) scored inflight w
             (snd (run_calculate_haspi cfg w))
    /\ map fst scored = map signal (firstn (List.length scored) selected)
    /\ (forall r, In r selected ->
          ~ logged w (results_file_name cfg) (signal r))
    /\ match fst (run_calculate_haspi cfg w) with
       | Ok _ => inflight = [] /\ List.length scored = List.length selected
       | Raise _ =>
           (scored = [] /\ inflight = [])
           \/ exists r, nth_error selected (List.length scored) = Some r
                        /\ inflight = [Scoring (signal r)]
       end.
Proof.
  destruct (run_calculate_haspi_cases cfg w)
    as [[e He]|(records & results & index & selected
                & Hm & Hread & Hindex & Hsel & Hrun)].
  - exists [], [], []. rewrite He. cbn [fst snd].
    split; [apply grown_by_refl|]. split; [reflexivity|].
    split; [intros r []|]. left. split; reflexivity.
  - rewrite Hrun.
    destruct (for_each_shape cfg (results_file_name cfg) selected w)
      as (scored & inflight & Hgrown & Hnames & Hend).
    exists selected, scored, inflight.
    split; [assumption|]. split; [assumption|]. split.
    + intros r Hr.
      now apply (selected_not_logged cfg w _ results index records selected
                   eq_refl Hread Hindex Hsel r Hr).
    + destruct (fst (for_each (score_and_append cfg (results_file_name cfg))
                              selected w)); [assumption|].
      right. assumption.
Qed.


(** *** The log only grows *)


(** *** Signals already in the log *)

Lemma in_firstn {A} (n : nat) (l : list A) x : In x (firstn n l) -> In x l.
Proof.
  intros Hin. rewrite <- (firstn_skipn n l). apply in_or_app. now left.
Qed.

(** The signals a run scores or starts to score have no line in the log the
    run found. *)
Lemma scored_were_not_logged cfg w selected scored inflight :
  map fst scored = map signal (firstn (List.length scored) selected) ->
  (forall r, In r selected -> ~ logged w (results_file_name cfg) (signal r)) ->
  ((scored = [] /\ inflight = [])
   \/ inflight = []
   \/ exists r, nth_error selected (List.length scored) = Some r
                /\ inflight = [Scoring (signal r)]) ->
  forall name,
    logged w (results_file_name cfg) name ->
    Forall (fun d => fst d <> name) scored
    /\ ~ In (Scoring name)
            (scoring_events (results_file_name cfg) scored ++ inflight).
Proof.
  intros Hnames Hsel Hend name Hlogged.
  assert (Hscored : Forall (fun d => fst d <> name) scored).
  { apply Forall_forall. intros d Hd Heq.
    assert (Hin : In (fst d) (map fst scored)) by now apply in_map.
    rewrite Hnames in Hin. apply in_map_iff in Hin as (r & Hr & Hin).
    apply in_firstn in Hin. apply (Hsel r Hin). congruence. }
  split; [assumption|].
  intros Hin. apply in_app_or in Hin as [Hin|Hin].
  - unfold scoring_events in Hin. apply in_flat_map in Hin as (d & Hd & Hev).
    rewrite Forall_forall in Hscored. specialize (Hscored d Hd).
    destruct Hev as [Hev|[Hev|[]]]; [|discriminate].
    injection Hev as Hev. congruence.
  - destruct Hend as [[_ ->]|[->|(r & Hr & ->)]]; try contradiction.
    destruct Hin as [Hin|[]]. injection Hin as Hin.
    apply nth_error_In in Hr. apply (Hsel r Hr). congruence.
Qed.

(** C4: when the log already holds a record for a signal, a run with any
    manifest starts no score computation for that signal and appends no
    line for it. *)
Theorem logged_signal_is_skipped cfg w signal_name :
  logged w (results_file_name cfg) signal_name ->
  exists scored inflight,
    log_lines (snd (run_calculate_haspi cfg w)) (results_file_name cfg)
    = log_lines w (results_file_name cfg) ++ map result_line scored
    /\ trace (snd (run_calculate_haspi cfg w))
       = trace w ++ scoring_events (results_file_name cfg) scored ++ inflight
    /\ Forall (fun d => fst d <> signal_name) scored
    /\ ~ In (Scoring signal_name)
            (scoring_events (results_file_name cfg) scored ++ inflight).
Proof.
  intros Hlogged.
  destruct (run_calculate_haspi_shape cfg w)
    as (selected & scored & inflight & Hgrown & Hnames & Hsel & Hend).
  destruct Hgrown as (Hlog & Htrace & _).
  exists scored, inflight.
  split; [assumption|]. split; [assumption|].
  apply (scored_were_not_logged cfg w selected scored inflight Hnames Hsel);
    [|assumption].
  destruct (fst (run_calculate_haspi cfg w)).
  - right; left. apply Hend.
  - destruct Hend as [Hend|Hend]; [left|right; right]; assumption.
Qed.

(** *** The results file *)

(** One turn of the loop: the computation in the world of the turn, then
    the line. *)
Lemma score_and_append_eq cfg file r w :
  score_and_append cfg file r w
  = match compute_haspi_for_signal (signal r) (path cfg)
                                   (before_scoring cfg r w) with
    | (Ok h, w') => write_jsonl file [result_record (signal r) h] w'
    | (Raise e, w') => (Raise e, w')
    end.
Proof.
  unfold score_and_append, before_scoring.
  set (seeding := if set_random_seed (compute_haspi cfg)
                  then set_seed_with_string (signal r) else ret tt).
  assert (Hseed : exists w1, seeding w = (Ok tt, w1)).
  { unfold seeding. destruct (set_random_seed (compute_haspi cfg)).
    - rewrite set_seed_with_string_eq. now eexists.
    - now eexists. }
  destruct Hseed as (w1 & Hw1).
  unfold bind. rewrite Hw1. cbn [snd]. reflexivity.
Qed.

(** One turn of the loop, by the outcome of the computation. *)
Lemma score_and_append_turn cfg file r w :
  match compute_haspi_for_signal (signal r) (path cfg)
                                 (before_scoring cfg r w) with
  | (Ok h, _) =>
      fst (score_and_append cfg file r w) = Ok tt
      /\ log_lines (snd (score_and_append cfg file r w)) file
         = log_lines w file ++ [json_dumps (result_record (signal r) h)]
      /\ trace (snd (score_and_append cfg file r w))
         = trace w ++ [Scoring (signal r);
                       Appended file (json_dumps (result_record (signal r) h))]
  | (Raise e, w') => score_and_append cfg file r w = (Raise e, w')
  end.
Proof.
  rewrite score_and_append_eq.
  pose proof (quiet_compute_haspi_for_signal (signal r) (path cfg)
                (before_scoring cfg r w)) as Hquiet.
  destruct (compute_haspi_for_signal (signal r) (path cfg)
              (before_scoring cfg r w)) as [[h|e] w3];
    [|reflexivity].
  cbn [snd] in Hquiet. destruct Hquiet as (_ & _ & _ & Ht & Htr).
  assert (Hbefore : text_files (before_scoring cfg r w) = text_files w
                    /\ trace (before_scoring cfg r w)
                       = trace w ++ [Scoring (signal r)]).
  { unfold before_scoring. destruct (set_random_seed (compute_haspi cfg)).
    - rewrite set_seed_with_string_eq. split; reflexivity.
    - split; reflexivity. }
  destruct Hbefore as [Ht0 Htr0].
  pose proof (write_jsonl_appends file [result_record (signal r) h] w3)
    as Happ.
  cbv zeta in Happ. destruct Happ as (Hok & Hl & Htw & _).
  split; [exact Hok|]. split.
  - rewrite Hl. unfold log_lines. now rewrite Ht, Ht0.
  - rewrite Htw, Htr, Htr0, <- app_assoc. reflexivity.
Qed.

(** The loop, turn by turn: the scores it logs are those the computation
    returns in the world of each turn; it stops at the first computation
    that raises, with that exception. *)
Lemma for_each_scored cfg file records : forall w,
  exists scored,
    log_lines (snd (for_each (score_and_append cfg file) records w)) file
    = log_lines w file ++ map result_line scored
    /\ scored_in_turn cfg file (firstn (List.length scored) records) w scored
    /\ match fst (for_each (score_and_append cfg file) records w) with
       | Ok _ => List.length scored = List.length records
       | Raise e =>
           exists r,
             nth_error records (List.length scored) = Some r
             /\ fst (compute_haspi_for_signal
                       (signal r) (path cfg)
                       (before_scoring
                          cfg r
                          (snd (for_each (score_and_append cfg file)
                                         (firstn (List.length scored) records)
                                         w))))
                = Raise e
       end.
Proof.
  induction records as [|r rest IH]; intros w.
  - exists []. cbn [for_each ret fst snd map List.length firstn scored_in_turn].
    rewrite app_nil_r. repeat split.
  - cbn [for_each]. unfold bind.
    pose proof (score_and_append_turn cfg file r w) as Hturn.
    destruct (compute_haspi_for_signal (signal r) (path cfg)
                (before_scoring cfg r w)) as [[h|e] w3] eqn:Hcomp.
    + destruct Hturn as (Hok & Hlog & _).
      destruct (score_and_append cfg file r w) as [res w1] eqn:Hstep.
      cbn [fst snd] in Hok, Hlog. subst res.
      destruct (IH w1) as (scored & Hlog' & Hturns & Hend).
      exists ((signal r, h) :: scored).
      cbn [List.length firstn map scored_in_turn fst snd].
      split; [|split].
      * rewrite Hlog', Hlog, <- app_assoc. reflexivity.
      * split; [reflexivity|]. rewrite Hcomp, Hstep. cbn [fst snd].
        split; [reflexivity | exact Hturns].
      * destruct (fst (for_each (score_and_append cfg file) rest w1)) eqn:Hrest.
        -- now rewrite Hend.
        -- destruct Hend as (r' & Hnth & Hraise).
           exists r'. split; [exact Hnth|].
           cbn [for_each]. unfold bind at 1. rewrite Hstep. exact Hraise.
    + rewrite Hturn. exists [].
      cbn [fst snd map List.length firstn scored_in_turn for_each ret].
      pose proof (quiet_compute_haspi_for_signal (signal r) (path cfg)
                    (before_scoring cfg r w)) as Hquiet.
      rewrite Hcomp in Hquiet. cbn [snd] in Hquiet.
      destruct Hquiet as (_ & _ & _ & Ht & _).
      split; [|split].
      * rewrite app_nil_r. unfold log_lines, before_scoring in *.
        rewrite Ht. destruct (set_random_seed (compute_haspi cfg));
          [rewrite set_seed_with_string_eq|]; reflexivity.
      * exact I.
      * exists r. split; [reflexivity|]. now rewrite Hcomp.
Qed.

(** C8: the results file is [{dataset}.haspi.{batch}_{n_batches}.jsonl]
    when there is more than one batch and [{dataset}.haspi.jsonl]
    otherwise.  A run writes to that file only, and every line it writes is
    the JSON text of an object with the signal name under [signal] and the
    score under [haspi], so a log that starts empty holds such lines only.
    And it does write them: once the manifest and the log are read, the
    log grows by one such line for each selected record in turn, with the
    score that the computation returned in that turn, for all of the
    selection when the run completes and up to the first record whose
    computation raises otherwise. *)
Theorem results_file_and_lines cfg w :
  let results_file := results_file_name cfg in
  let b := batch (compute_haspi cfg) in
  let n := n_batches (compute_haspi cfg) in
  let run := run_calculate_haspi cfg w in
  let line_of := fun d : string * float =>
    json_dumps (JObj [("signal", JStr (fst d)); ("haspi", JFloat (snd d))]) in
  ((1 < n)%Z ->
     results_file
     = (dataset cfg ++ ".haspi." ++ str_of_int b ++ "_" ++ str_of_int n
                    ++ ".jsonl")%string)
  /\ ((n <= 1)%Z -> results_file = (dataset cfg ++ ".haspi.jsonl")%string)
  /\ (exists scored new_events,
      log_lines (snd run) results_file
      = log_lines w results_file ++ map line_of scored
      /\ trace (snd run) = trace w ++ new_events
      /\ (forall f line, In (Appended f line) new_events ->
            f = results_file /\ exists d, line = line_of d)
      /\ (forall f, f <> results_file ->
            text_files (snd run) f = text_files w f)
      /\ (log_lines w results_file = [] ->
          Forall (fun line => exists d, line = line_of d)
                 (log_lines (snd run) results_file)))
  /\ (forall records results index selected,
        manifests w (path_join (metadata_dir (path cfg))
                               (dataset cfg ++ ".json")%string)
        = Some records ->
        map_result json_loads (log_lines w results_file) = Ok results ->
        build_results_index results = Ok index ->
        select_records cfg index records = Ok selected ->
        exists scored,
          log_lines (snd run) results_file
          = log_lines w results_file ++ map line_of scored
          /\ scored_in_turn cfg results_file
                            (firstn (List.length scored) selected) w scored
          /\ match fst run with
             | Ok _ => List.length scored = List.length selected
             | Raise e =>
                 exists r,
                   nth_error selected (List.length scored) = Some r
                   /\ fst (compute_haspi_for_signal
                             (signal r) (path cfg)
                             (before_scoring
                                cfg r
                                (snd (for_each
                                        (score_and_append cfg results_file)
                                        (firstn (List.length scored) selected)
                                        w))))
                      = Raise e
             end).
Proof.
  cbv zeta. unfold results_file_name at 1 2.
  split; [|split; [|split]].
  - intros Hn. apply Z.ltb_lt in Hn. rewrite Hn.
    cbn [append]. now rewrite !StrFacts.append_assoc.
  - intros Hn. apply Z.ltb_ge in Hn. rewrite Hn. reflexivity.
  - destruct (run_calculate_haspi_shape cfg w)
      as (selected & scored & inflight & Hgrown & _ & _ & Hend).
    destruct Hgrown as (Hlog & Htrace & _ & _ & _ & Hother).
    exists scored, (scoring_events (results_file_name cfg) scored ++ inflight).
    split; [exact Hlog|]. split; [exact Htrace|]. split; [|split].
    + intros f line Hin. apply in_app_or in Hin as [Hin|Hin].
      * unfold scoring_events in Hin.
        apply in_flat_map in Hin as (d & _ & [Hev|[Hev|[]]]);
          [discriminate|].
        injection Hev as <- <-. split; [reflexivity|now exists d].
      * destruct (fst (run_calculate_haspi cfg w)).
        -- destruct Hend as [-> _]. contradiction.
        -- destruct Hend as [[_ ->]|(r & _ & ->)]; [contradiction|].
           destruct Hin as [Hin|[]]. discriminate.
    + exact Hother.
    + intros Hempty. rewrite Hlog, Hempty. cbn [app].
      apply Forall_forall. intros line Hin.
      apply in_map_iff in Hin as (d & <- & _). now exists d.
  - intros records results index selected Hm Hread Hindex Hsel.
    assert (Hrun : run_calculate_haspi cfg w
                   = for_each (score_and_append cfg (results_file_name cfg))
                              selected w).
    { unfold run_calculate_haspi, bind, load_manifest, file_exists,
        read_jsonl, lift, ret.
      rewrite Hm. unfold log_lines in Hread.
      destruct (text_files w (results_file_name cfg)) as [lines|] eqn:Hfile;
        cbv beta iota; rewrite ?Hfile.
      - now rewrite Hread, Hindex, Hsel.
      - cbn [map_result] in Hread. injection Hread as <-.
        now rewrite Hindex, Hsel. }
    rewrite Hrun.
    exact (for_each_scored cfg (results_file_name cfg) selected w).
Qed.

(** *** The score of one signal *)

(** C6, as the code has it: for a signal whose name parses, whose listener
    has an audiogram with its three fields, and whose processed and
    reference WAV files are there with two channels or more, the
    computation raises an assertion error when the two sample rates differ
    and otherwise hands the normalised channels to the scorer and returns
    the scorer's outcome as it is; so when the scorer returns a score, the
    computation fails exactly when the rates differ. *)
Theorem compute_haspi_for_signal_spec
  name path w scene listener system audiograms audiogram levels_l levels_r cfs
  proc ref ref_l ref_r ref_more proc_l proc_r proc_more :
  parse_cec2_signal_name name = Ok (scene, listener, system) ->
  json_files w (path_join (metadata_dir path) "listeners.json")
  = Some audiograms ->
  getitem audiograms listener = Ok audiogram ->
  getitem audiogram "audiogram_levels_l" = Ok levels_l ->
  getitem audiogram "audiogram_levels_r" = Ok levels_r ->
  getitem audiogram "audiogram_cfs" = Ok cfs ->
  wav_files w (path_join (signal_dir path) (name ++ ".wav")%string)
  = Some proc ->
  wav_files w (path_join (scene_dir path) (scene ++ "_target_ref.wav")%string)
  = Some ref ->
  data ref = Arr2 (ref_l :: ref_r :: ref_more) ->
  data proc = Arr2 (proc_l :: proc_r :: proc_more) ->
  let args :=
    {| reference_left := map normalize ref_l;
       reference_right := map normalize ref_r;
       processed_left := map normalize proc_l;
       processed_right := map normalize proc_r;
       fs_signal := rate proc;
       audiogram_left := levels_l;
       audiogram_right := levels_r;
       audiogram_cfs := cfs |} in
  let outcome := compute_haspi_for_signal name path w in
  (rate ref <> rate proc -> outcome = (Raise AssertionError, w))
  /\ (rate ref = rate proc -> outcome = call_haspi_v2_be args w)
  /\ (forall score,
        fst (haspi_v2_be args (np_random w)) = Ok score ->
        (raises (fst outcome) <-> rate ref <> rate proc)).
Proof.
  intros Hparse Hfile Haud Hl Hr Hcfs Hproc Href Hdref Hdproc args outcome.
  assert (Hdiff : rate ref <> rate proc -> outcome = (Raise AssertionError, w)).
  { intros Hne. unfold outcome, compute_haspi_for_signal, bind, lift,
      json_load, wavfile_read, assert.
    rewrite Hparse, Hfile, Haud, Hproc, Href.
    apply Z.eqb_neq in Hne. now rewrite Hne. }
  assert (Hsame : rate ref = rate proc -> outcome = call_haspi_v2_be args w).
  { intros Heq. unfold outcome, compute_haspi_for_signal, bind, lift,
      json_load, wavfile_read, assert.
    rewrite Hparse, Hfile, Haud, Hproc, Href.
    apply Z.eqb_eq in Heq. rewrite Heq, Hdref, Hdproc.
    cbn [ndarray_map column nth_error map]. now rewrite Hl, Hr, Hcfs. }
  split; [exact Hdiff|]. split; [exact Hsame|].
  intros score Hscore. split.
  - intros [e He] Heq. rewrite (Hsame Heq) in He.
    unfold call_haspi_v2_be in He.
    destruct (haspi_v2_be args (np_random w)) as [r st].
    cbn [fst] in *. congruence.
  - intros Hne. rewrite (Hdiff Hne). now exists AssertionError.
Qed.

(** *** Sharding *)

Lemma pick_in_range {A} (l : list A) ps :
  (forall p, In p ps -> (0 <= p < Z.of_nat (List.length l))%Z) ->
  Forall2 (fun p x => nth_error l (Z.to_nat p) = Some x) ps (Slice.pick l ps).
Proof.
  induction ps as [|p ps IH]; intros Hrange; cbn [Slice.pick flat_map].
  - constructor.
  - destruct (nth_error l (Z.to_nat p)) as [x|] eqn:Hx.
    + constructor; [exact Hx|]. apply IH. intros q Hq. apply Hrange. now right.
    + apply nth_error_None in Hx. specialize (Hrange p (or_introl eq_refl)). lia.
Qed.

Lemma unscored_nil records : unscored [] records = records.
Proof.
  unfold unscored. induction records as [|r rest IH]; [reflexivity|].
  cbn [filter in_keys existsb negb]. now f_equal.
Qed.

(** C1, as the code has it: shard [b] of [n] works on the records that
    stand, in the list of records not yet scored, at the positions whose
    remainder modulo [n] is [b - 1]; each position of that list belongs to
    exactly one shard; and with nothing in the log that list is the
    manifest, so the positions are manifest indices. *)
Theorem shard_is_residue_class_of_unscored cfg results_index records :
  let b := batch (compute_haspi cfg) in
  let n := n_batches (compute_haspi cfg) in
  let remaining := unscored results_index records in
  let positions := residue_class n (b - 1) (List.length remaining) in
  (1 <= b <= n)%Z ->
  exists selected,
    select_records cfg results_index records = Ok selected
    /\ Forall2 (fun p r => nth_error remaining (Z.to_nat p) = Some r)
               positions selected
    /\ (forall p, In p positions
                  <-> (0 <= p < Z.of_nat (List.length remaining))%Z
                      /\ (p mod n = b - 1)%Z)
    /\ (forall p, (0 <= p < Z.of_nat (List.length remaining))%Z ->
          exists! b', (1 <= b' <= n)%Z
                      /\ In p (residue_class n (b' - 1)
                                             (List.length remaining)))
    /\ (results_index = [] -> remaining = records).
Proof.
  intros b n remaining positions Hb.
  exists (Slice.pick remaining positions).
  split; [|split; [|split; [|split]]].
  - unfold select_records. fold b n remaining.
    now apply SliceFacts.from_step_shard.
  - apply pick_in_range. intros p Hp.
    now apply SliceFacts.in_residue_class in Hp.
  - intros p. apply SliceFacts.in_residue_class.
  - intros p Hp. apply SliceFacts.one_shard_per_position; [lia|assumption].
  - intros ->. apply unscored_nil.
Qed.

(** *** Running again *)

Lemma filter_all {A} (f : A -> bool) (l : list A) :
  (forall x, In x l -> f x = true) -> filter f l = l.
Proof.
  induction l as [|x l IH]; intros Hall; cbn [filter]; [reflexivity|].
  rewrite (Hall x (or_introl eq_refl)). f_equal.
  apply IH. intros y Hy. apply Hall. now right.
Qed.

Lemma filter_none {A} (f : A -> bool) (l : list A) :
  (forall x, In x l -> f x = false) -> filter f l = [].
Proof.
  induction l as [|x l IH]; intros Hnone; cbn [filter]; [reflexivity|].
  rewrite (Hnone x (or_introl eq_refl)).
  apply IH. intros y Hy. apply Hnone. now right.
Qed.

(** Picking every position gives the list. *)
Lemma pick_all {A} (l : list A) : forall front,
  Slice.pick (front ++ l)
             (map Z.of_nat (seq (List.length front) (List.length l)))
  = l.
Proof.
  induction l as [|x l IH]; intros front; [reflexivity|].
  cbn [List.length seq map Slice.pick flat_map].
  rewrite Nat2Z.id, nth_error_app2, Nat.sub_diag by lia.
  cbn [nth_error app]. f_equal.
  specialize (IH (front ++ [x])).
  rewrite <- app_assoc, length_app, Nat.add_1_r in IH. exact IH.
Qed.

(** With a single batch the slice is the whole list. *)
Lemma from_step_single_batch {A} (l : list A) : Slice.from_step l (1 - 1) 1 = Ok l.
Proof.
  rewrite SliceFacts.from_step_shard by lia. f_equal.
  unfold residue_class. rewrite filter_all.
  - exact (pick_all l []).
  - intros p _. rewrite Z.mod_1_r. reflexivity.
Qed.

(** The driver, once the manifest, the log and the index are known. *)
Lemma run_calculate_haspi_eq cfg w records results index selected :
  manifests w (path_join (metadata_dir (path cfg))
                         (dataset cfg ++ ".json")%string)
  = Some records ->
  map_result json_loads (log_lines w (results_file_name cfg)) = Ok results ->
  build_results_index results = Ok index ->
  select_records cfg index records = Ok selected ->
  run_calculate_haspi cfg w
  = for_each (score_and_append cfg (results_file_name cfg)) selected w.
Proof.
  intros Hm Hread Hindex Hsel.
  unfold run_calculate_haspi, bind, load_manifest, file_exists, read_jsonl,
    lift, ret.
  rewrite Hm. unfold log_lines in Hread.
  destruct (text_files w (results_file_name cfg)) as [lines|] eqn:Hfile;
    cbv beta iota; rewrite ?Hfile.
  - now rewrite Hread, Hindex, Hsel.
  - cbn [map_result] in Hread. injection Hread as <-.
    now rewrite Hindex, Hsel.
Qed.

(** Lines that read back as string keys give an index that has them. *)
Lemma index_of_logged_lines lines names :
  Forall2 (fun line name => logged_signal line = Ok (JStr name)) lines names ->
  exists results index,
    map_result json_loads lines = Ok results
    /\ build_results_index results = Ok index
    /\ forall name, In name names -> in_keys name index = true.
Proof.
  induction 1 as [|line name lines names Hline _ IH].
  - exists [], []. repeat split. intros name [].
  - destruct IH as (results & index & Hread & Hindex & Hkeys).
    unfold logged_signal in Hline.
    destruct (json_loads line) as [j|] eqn:Hj; [|discriminate].
    exists (j :: results), ((JStr name, j) :: index).
    cbn [map_result build_results_index].
    rewrite Hj, Hread, Hline, Hindex. cbn [hashable].
    split; [reflexivity|]. split; [reflexivity|].
    intros name' [<-|Hin]; cbn [in_keys existsb fst].
    + now rewrite String.eqb_refl.
    + apply orb_true_iff. right. now apply Hkeys.
Qed.

(** C3, as the code has it: with a single batch, a manifest whose signal
    names are pairwise distinct and no log to start from, a run that
    completes leaves one line per manifest signal, in manifest order; a
    second run then completes without computing or appending anything, so
    the log holds exactly one record per signal name.  (The lines written
    must read back under their signal name.) *)
Theorem rerun_keeps_one_record_per_signal cfg w records :
  batch (compute_haspi cfg) = 1%Z ->
  n_batches (compute_haspi cfg) = 1%Z ->
  manifests w (path_join (metadata_dir (path cfg))
                         (dataset cfg ++ ".json")%string)
  = Some records ->
  NoDup (map signal records) ->
  log_lines w (results_file_name cfg) = [] ->
  (forall r h, In r records ->
     logged_signal (json_dumps (result_record (signal r) h))
     = Ok (JStr (signal r))) ->
  fst (run_calculate_haspi cfg w) = Ok tt ->
  let w1 := snd (run_calculate_haspi cfg w) in
  let again := run_calculate_haspi cfg w1 in
  fst again = Ok tt
  /\ trace (snd again) = trace w1
  /\ exists scored,
      log_lines (snd again) (results_file_name cfg) = map result_line scored
      /\ map fst scored = map signal records
      /\ NoDup (map fst scored).
Proof.
  intros Hb Hn Hm Hnodup Hempty Hjson Hdone w1 again.
  assert (Hsel : select_records cfg [] records = Ok records).
  { unfold select_records. rewrite Hb, Hn, unscored_nil.
    apply from_step_single_batch. }
  assert (Hrun : run_calculate_haspi cfg w
                 = for_each (score_and_append cfg (results_file_name cfg))
                            records w).
  { apply (run_calculate_haspi_eq cfg w records [] []);
      [assumption | now rewrite Hempty | reflexivity | assumption]. }
  destruct (for_each_shape cfg (results_file_name cfg) records w)
    as (scored & inflight & Hgrown & Hnames & Hend).
  rewrite <- Hrun in Hgrown, Hend. rewrite Hdone in Hend.
  destruct Hend as [-> Hlen]. fold w1 in Hgrown.
  destruct Hgrown as (Hlog & _ & Hm1 & _).
  rewrite Hempty in Hlog. cbn [app] in Hlog.
  rewrite Hlen, firstn_all in Hnames.
  assert (Hlines : Forall2 (fun line name => logged_signal line = Ok (JStr name))
                           (map result_line scored) (map fst scored)).
  { assert (Hall : forall d, In d scored -> In (fst d) (map signal records)).
    { intros d Hd. rewrite <- Hnames. now apply in_map. }
    clear Hnames Hlog Hlen.
    induction scored as [|d scored IH]; cbn [map]; constructor.
    - destruct (proj1 (in_map_iff _ _ _) (Hall d (or_introl eq_refl)))
        as (r & Hsig & Hr).
      unfold result_line. rewrite <- Hsig. now apply Hjson.
    - apply IH. intros d' Hd'. apply Hall. now right. }
  destruct (index_of_logged_lines _ _ Hlines)
    as (results & index & Hread & Hindex & Hkeys).
  assert (Hnone : unscored index records = []).
  { apply filter_none. intros r Hr. rewrite Hkeys; [reflexivity|].
    rewrite Hnames. now apply in_map. }
  assert (Hsel' : select_records cfg index records = Ok []).
  { unfold select_records. rewrite Hnone, Hb, Hn. reflexivity. }
  assert (Hagain : again = (Ok tt, w1)).
  { unfold again.
    rewrite (run_calculate_haspi_eq cfg w1 records results index []);
      [reflexivity | now rewrite Hm1 | now rewrite Hlog | assumption
       | assumption]. }
  rewrite Hagain. cbn [fst snd].
  split; [reflexivity|]. split; [reflexivity|].
  exists scored. split; [assumption|]. split; [assumption|].
  now rewrite Hnames.
Qed.

End DriverFacts.

(** * Further properties of the script *)

(** ** More on the parser *)

Module ParserFacts.
Import Str.

(** No segment of a split holds the separator. *)
Lemma split_segments_clean sep s :
  Forall (fun seg => contains sep seg = false) (split sep s).
Proof.
  induction s as [|c rest IH]; cbn [split].
  - repeat constructor.
  - destruct (Ascii.eqb c sep) eqn:Hc.
    + constructor; [reflexivity | exact IH].
    + destruct (split sep rest) as [|seg segs].
      * repeat constructor. cbn. now rewrite Hc.
      * inversion IH as [|? ? Hseg Hsegs]; subst.
        constructor; [|assumption]. cbn. now rewrite Hc, Hseg.
Qed.

(** A string with a separator splits into two segments or more. *)
Lemma split_with_sep sep s :
  contains sep s = true -> exists a b rest, split sep s = a :: b :: rest.
Proof.
  induction s as [|c rest IH]; cbn [contains split]; [discriminate|].
  destruct (Ascii.eqb c sep) eqn:Hc; cbn [orb].
  - intros _. destruct (StrFacts.split_cons sep rest) as (seg & segs & ->).
    now eexists _, _, _.
  - intros H. destruct (IH H) as (a & b & more & ->). now eexists _, _, _.
Qed.

(** A successful parse, read off the segments. *)
Lemma parse_ok_segments name scene listener system :
  parse_cec2_signal_name name = Ok (scene, listener, system) ->
  exists tag tags,
    split "_" name = scene :: listener :: tag :: tags
    /\ system = join "_" (tag :: tags)
    /\ scene <> EmptyString /\ listener <> EmptyString.
Proof.
  intros H. pose proof (parse_by_segments name) as Hseg.
  destruct (split "_" name) as [|s [|l [|tag tags]]];
    try (destruct Hseg as [msg Hmsg]; congruence).
  destruct (is_empty s) eqn:Hs; [destruct Hseg as [msg Hmsg]; congruence|].
  destruct (is_empty l) eqn:Hl; [destruct Hseg as [msg Hmsg]; congruence|].
  cbn [orb] in Hseg. rewrite Hseg in H. injection H as <- <- <-.
  exists tag, tags. repeat split; now apply StrFacts.is_empty_false.
Qed.

End ParserFacts.

(** X1: the scene and the listener of a parsed name are not empty and hold
    no underscore, so each names one path component and one metadata key. *)
Theorem parsed_scene_and_listener_are_clean name scene listener system :
  parse_cec2_signal_name name = Ok (scene, listener, system) ->
  scene <> EmptyString /\ listener <> EmptyString
  /\ Str.contains "_" scene = false /\ Str.contains "_" listener = false.
Proof.
  intros H.
  destruct (ParserFacts.parse_ok_segments _ _ _ _ H)
    as (tag & tags & Hsplit & _ & Hs & Hl).
  pose proof (ParserFacts.split_segments_clean "_" name) as Hclean.
  rewrite Hsplit in Hclean.
  inversion Hclean as [|? ? Hscene Hrest]; subst.
  inversion Hrest as [|? ? Hlistener _]; subst.
  repeat split; assumption.
Qed.

(** X2: two names that parse to the same scene, listener and system are the
    same name. *)
Theorem parse_is_injective name1 name2 parts :
  parse_cec2_signal_name name1 = Ok parts ->
  parse_cec2_signal_name name2 = Ok parts ->
  name1 = name2.
Proof.
  destruct parts as [[scene listener] system]. intros H1 H2.
  destruct (ParserFacts.parse_ok_segments _ _ _ _ H1)
    as (tag1 & tags1 & Hsplit1 & Hsys1 & _).
  destruct (ParserFacts.parse_ok_segments _ _ _ _ H2)
    as (tag2 & tags2 & Hsplit2 & Hsys2 & _).
  rewrite <- (StrFacts.join_split "_" name1), <- (StrFacts.join_split "_" name2).
  rewrite Hsplit1, Hsplit2.
  change (Str.join "_" (scene :: listener :: tag1 :: tags1))
    with (scene ++ "_" ++ listener ++ "_" ++ Str.join "_" (tag1 :: tags1)).
  change (Str.join "_" (scene :: listener :: tag2 :: tags2))
    with (scene ++ "_" ++ listener ++ "_" ++ Str.join "_" (tag2 :: tags2)).
  now rewrite <- Hsys1, <- Hsys2.
Qed.

(** X3: a name without any underscore, the empty name included, fails in
    the unpacking of the split; every other name the parser refuses is
    reported with the message that quotes the name. *)
Theorem parse_error_messages name :
  (Str.contains "_" name = false ->
   parse_cec2_signal_name name
   = Raise (ValueError
              "not enough values to unpack (expected at least 2, got 1)"))
  /\ (Str.contains "_" name = true ->
      forall e, parse_cec2_signal_name name = Raise e ->
                e = ValueError ("Invalid CEC2 signal name: " ++ name)).
Proof.
  split.
  - intros Hnone. unfold parse_cec2_signal_name.
    now rewrite (StrFacts.split_no_sep _ _ Hnone).
  - intros Hsome e He. unfold parse_cec2_signal_name in He.
    destruct (ParserFacts.split_with_sep _ _ Hsome) as (a & b & rest & Hsplit).
    rewrite Hsplit in He.
    destruct (Str.is_empty a || Str.is_empty b
              || match rest with [] => true | _ :: _ => false end);
      congruence.
Qed.


(** ** More on seeding and on the log file *)

(** A digest of [n] bytes spells a number below [256 ^ n]. *)
Lemma be_value_bound digest : forall acc bound,
  (0 <= acc < bound)%Z ->
  (0 <= Hex.be_value acc digest
   < bound * 256 ^ Z.of_nat (List.length digest))%Z.
Proof.
  induction digest as [|b rest IH]; intros acc bound Hacc;
    cbn [Hex.be_value List.length].
  - cbn. lia.
  - pose proof (Byte.to_N_bounded b) as Hb.
    specialize (IH (256 * acc + Z.of_N (Byte.to_N b))%Z (256 * bound)%Z
                   ltac:(lia)).
    rewrite Nat2Z.inj_succ, Z.pow_succ_r by lia. lia.
Qed.

Section LogFileFacts.

Context {E : Externals}.

Local Open Scope list_scope.

(** X4: the integer taken from the hex digest of a string is always
    defined, and it is a 128-bit number: reading the digest never raises,
    and only the modulus brings the seed below 10^8. *)
Theorem md5_int_is_128_bit (seed_string : string) :
  exists n, md5_int seed_string = Ok n
            /\ (0 <= n < 2 ^ 128)%Z
            /\ seed_of_string seed_string = (n mod 10 ^ 8)%Z.
Proof.
  exists (Hex.be_value 0 (md5 (list_byte_of_string seed_string))).
  split; [apply md5_int_ok|]. split; [|reflexivity].
  pose proof (be_value_bound (md5 (list_byte_of_string seed_string)) 0 1
                             ltac:(lia)) as Hbound.
  rewrite md5_digest_size in Hbound. exact Hbound.
Qed.

Lemma map_result_app {A B} (f : A -> result B) (l1 l2 : list A) ys1 :
  map_result f l1 = Ok ys1 ->
  map_result f (l1 ++ l2)
  = match map_result f l2 with
    | Ok ys2 => Ok (ys1 ++ ys2)
    | Raise e => Raise e
    end.
Proof.
  revert ys1. induction l1 as [|x l1 IH]; intros ys1 H; cbn [map_result app] in *.
  - injection H as <-. now destruct (map_result f l2).
  - destruct (f x) as [y|]; [|discriminate].
    destruct (map_result f l1) as [ys|]; [|discriminate].
    injection H as <-. rewrite (IH ys eq_refl).
    now destruct (map_result f l2).
Qed.

(** After [write_jsonl] the file is there, with its old lines first. *)
Lemma write_jsonl_file file records w :
  text_files (snd (write_jsonl file records w)) file
  = Some (log_lines w file ++ map json_dumps records).
Proof.
  pose proof (write_jsonl_appends file records w) as (_ & Hlog & _).
  unfold write_jsonl in *. cbn [fst snd] in *.
  assert (Hsome : forall w0, text_files w0 file <> None ->
            text_files (fold_left
                          (fun w' r => append_line file (json_dumps r) w')
                          records w0) file <> None).
  { clear. induction records as [|r rest IH]; intros w0 H0; cbn [fold_left];
      [assumption|].
    apply IH. cbn. now rewrite String.eqb_refl. }
  specialize (Hsome (set_text_file file (log_lines w file) w)).
  unfold log_lines at 1 in Hlog.
  destruct (text_files _ file) as [lines|].
  - now rewrite Hlog.
  - exfalso. apply Hsome; [|reflexivity]. cbn. now rewrite String.eqb_refl.
Qed.

(** X6: writing two batches of records one after the other leaves the file,
    the events and every other file as writing them in one call does. *)
Theorem write_jsonl_composes file records1 records2 w :
  let one_call := snd (write_jsonl file (records1 ++ records2) w) in
  let two_calls :=
    snd (write_jsonl file records2 (snd (write_jsonl file records1 w))) in
  (forall f, text_files two_calls f = text_files one_call f)
  /\ trace two_calls = trace one_call
  /\ np_random two_calls = np_random one_call.
Proof.
  cbv zeta.
  pose proof (write_jsonl_appends file records1 w)
    as (_ & Hl1 & Ht1 & _ & _ & _ & Hr1 & Hf1).
  pose proof (write_jsonl_appends file records2
                                  (snd (write_jsonl file records1 w)))
    as (_ & _ & Ht2 & _ & _ & _ & Hr2 & Hf2).
  pose proof (write_jsonl_appends file (records1 ++ records2) w)
    as (_ & _ & Ht & _ & _ & _ & Hr & Hf).
  cbv zeta in *.
  split; [|split].
  - intros f. destruct (String.eqb_spec f file) as [->|Hne].
    + rewrite !write_jsonl_file, Hl1, map_app, app_assoc. reflexivity.
    + rewrite Hf2, Hf1, Hf by assumption. reflexivity.
  - rewrite Ht2, Ht1, Ht, map_app, app_assoc. reflexivity.
  - congruence.
Qed.

(** X7: on a file that is missing or empty, what [write_jsonl] has
    written [read_jsonl] reads back: when the write returns, the read
    returns the records written, in order, provided [json.loads] inverts
    [json.dumps] on them. *)
Theorem read_jsonl_after_write_jsonl file records w :
  log_lines w file = [] ->
  Forall (fun r => json_loads (json_dumps r) = Ok r) records ->
  fst (write_jsonl file records w) = Ok tt ->
  fst (read_jsonl file (snd (write_jsonl file records w))) = Ok records.
Proof.
  intros Hempty Hcodec _. unfold read_jsonl.
  rewrite write_jsonl_file, Hempty. cbn [fst app].
  induction Hcodec as [|r rest Hr _ IH];
    cbn [map map_result]; [reflexivity|].
  now rewrite Hr, IH.
Qed.

(** X8: [read_jsonl] raises for a missing file, and for a file with a line
    that does not parse it raises the error of the first such line; the
    world is left as it was. *)
Theorem read_jsonl_errors file w :
  (text_files w file = None ->
   read_jsonl file w = (Raise (FileNotFoundError file), w))
  /\ (forall good bad rest parsed e,
        text_files w file = Some (good ++ bad :: rest) ->
        map_result json_loads good = Ok parsed ->
        json_loads bad = Raise e ->
        read_jsonl file w = (Raise e, w)).
Proof.
  unfold read_jsonl. split.
  - now intros ->.
  - intros good bad rest parsed e -> Hgood Hbad.
    rewrite (map_result_app _ _ _ _ Hgood). cbn [map_result].
    now rewrite Hbad.
Qed.

End LogFileFacts.

(** ** More on the score of one signal *)

Section ScoreFacts.

Context {E : Externals}.

(** The computation up to the two WAV files. *)
Lemma compute_haspi_for_signal_loaded
  name path w scene listener system audiograms audiogram proc ref :
  parse_cec2_signal_name name = Ok (scene, listener, system) ->
  json_files w (path_join (metadata_dir path) "listeners.json")
  = Some audiograms ->
  getitem audiograms listener = Ok audiogram ->
  wav_files w (path_join (signal_dir path) (name ++ ".wav")) = Some proc ->
  wav_files w (path_join (scene_dir path) (scene ++ "_target_ref.wav"))
  = Some ref ->
  compute_haspi_for_signal name path w
  = bind (assert (rate ref =? rate proc)%Z)
         (fun _ =>
            bind (lift (column (ndarray_map normalize (data ref)) 0))
              (fun ref_l =>
            bind (lift (column (ndarray_map normalize (data ref)) 1))
              (fun ref_r =>
            bind (lift (column (ndarray_map normalize (data proc)) 0))
              (fun proc_l =>
            bind (lift (column (ndarray_map normalize (data proc)) 1))
              (fun proc_r =>
            bind (lift (getitem audiogram "audiogram_levels_l"))
              (fun levels_l =>
            bind (lift (getitem audiogram "audiogram_levels_r"))
              (fun levels_r =>
            bind (lift (getitem audiogram "audiogram_cfs"))
              (fun cfs =>
            call_haspi_v2_be
              {| reference_left := ref_l; reference_right := ref_r;
                 processed_left := proc_l; processed_right := proc_r;
                 fs_signal := rate proc;
                 audiogram_left := levels_l; audiogram_right := levels_r;
                 audiogram_cfs := cfs |}))))))))
         w.
Proof.
  intros Hparse Hfile Haud Hproc Href.
  unfold compute_haspi_for_signal.
  unfold bind at 1, lift at 1. rewrite Hparse.
  unfold bind at 1, json_load. rewrite Hfile.
  unfold bind at 1, lift at 1. rewrite Haud.
  unfold bind at 1, wavfile_read at 1. rewrite Hproc.
  unfold bind at 1, wavfile_read at 1. rewrite Href.
  reflexivity.
Qed.

(** X9: a name of fewer than three segments stops the computation at the
    parser, whatever files there are, and nothing is touched. *)
Theorem short_name_stops_at_the_parser name path w :
  (List.length (Str.split "_" name) < 3)%nat ->
  exists msg,
    compute_haspi_for_signal name path w = (Raise (ValueError msg), w).
Proof.
  intros Hlen. pose proof (parse_by_segments name) as Hseg.
  assert (Hraise : exists msg,
             parse_cec2_signal_name name = Raise (ValueError msg)).
  { destruct (Str.split "_" name) as [|a [|b [|c rest]]];
      try exact Hseg. cbn in Hlen. lia. }
  destruct Hraise as [msg Hmsg]. exists msg.
  unfold compute_haspi_for_signal, bind, lift. now rewrite Hmsg.
Qed.

(** X10: the inputs are looked up in a fixed order and the first one that
    is missing decides the exception: the listener metadata file, then the
    listener in it, then the processed WAV file, then the reference WAV
    file of the scene.  The world is left as it was. *)
Theorem first_missing_input_decides name path w scene listener system :
  parse_cec2_signal_name name = Ok (scene, listener, system) ->
  let metadata := path_join (metadata_dir path) "listeners.json" in
  let processed := path_join (signal_dir path) (name ++ ".wav") in
  let reference := path_join (scene_dir path) (scene ++ "_target_ref.wav") in
  (json_files w metadata = None ->
   compute_haspi_for_signal name path w
   = (Raise (FileNotFoundError metadata), w))
  /\ (forall listeners,
        json_files w metadata = Some (JObj listeners) ->
        assoc listener listeners = None ->
        compute_haspi_for_signal name path w = (Raise (KeyError listener), w))
  /\ (forall audiograms audiogram,
        json_files w metadata = Some audiograms ->
        getitem audiograms listener = Ok audiogram ->
        (wav_files w processed = None ->
         compute_haspi_for_signal name path w
         = (Raise (FileNotFoundError processed), w))
        /\ (wav_files w processed <> None ->
            wav_files w reference = None ->
            compute_haspi_for_signal name path w
            = (Raise (FileNotFoundError reference), w))).
Proof.
  intros Hparse metadata processed reference.
  unfold compute_haspi_for_signal, bind, lift, json_load, wavfile_read.
  rewrite Hparse. fold metadata processed reference.
  split; [|split].
  - now intros ->.
  - intros listeners -> Hnone. cbn [getitem]. now rewrite Hnone.
  - intros audiograms audiogram -> ->. split.
    + now intros ->.
    + intros Hproc Href.
      destruct (wav_files w processed); [|contradiction]. now rewrite Href.
Qed.

(** X11: when the two sample rates differ the computation stops at the
    assertion, before any channel is taken and before the audiogram levels
    are read: whatever the channel layout of the files. *)
Theorem different_rates_stop_at_the_assertion
  name path w scene listener system audiograms audiogram proc ref :
  parse_cec2_signal_name name = Ok (scene, listener, system) ->
  json_files w (path_join (metadata_dir path) "listeners.json")
  = Some audiograms ->
  getitem audiograms listener = Ok audiogram ->
  wav_files w (path_join (signal_dir path) (name ++ ".wav")) = Some proc ->
  wav_files w (path_join (scene_dir path) (scene ++ "_target_ref.wav"))
  = Some ref ->
  rate ref <> rate proc ->
  compute_haspi_for_signal name path w = (Raise AssertionError, w).
Proof.
  intros Hparse Hfile Haud Hproc Href Hne.
  rewrite (compute_haspi_for_signal_loaded _ _ _ _ _ _ _ _ _ _
             Hparse Hfile Haud Hproc Href).
  unfold bind, assert. apply Z.eqb_neq in Hne. now rewrite Hne.
Qed.

(** X12: at equal sample rates, a reference or a processed file with fewer
    than two channels (a mono file comes as a 1-D array) makes the
    computation raise an index error, whatever the audiogram holds; the
    scorer is not reached and the world is left as it was. *)
Theorem fewer_than_two_channels_raise
  name path w scene listener system audiograms audiogram proc ref :
  parse_cec2_signal_name name = Ok (scene, listener, system) ->
  json_files w (path_join (metadata_dir path) "listeners.json")
  = Some audiograms ->
  getitem audiograms listener = Ok audiogram ->
  wav_files w (path_join (signal_dir path) (name ++ ".wav")) = Some proc ->
  wav_files w (path_join (scene_dir path) (scene ++ "_target_ref.wav"))
  = Some ref ->
  rate ref = rate proc ->
  match data ref, data proc with
  | Arr2 (_ :: _ :: _), Arr2 (_ :: _ :: _) => False
  | _, _ => True
  end ->
  exists msg,
    compute_haspi_for_signal name path w = (Raise (IndexError msg), w).
Proof.
  intros Hparse Hfile Haud Hproc Href Heq Hfew.
  rewrite (compute_haspi_for_signal_loaded _ _ _ _ _ _ _ _ _ _
             Hparse Hfile Haud Hproc Href).
  unfold bind, assert, lift. apply Z.eqb_eq in Heq. rewrite Heq.
  destruct (data ref) as [rs|[|r0 [|r1 rcols]]];
    try (eexists; reflexivity).
  destruct (data proc) as [ps|[|p0 [|p1 pcols]]];
    try (eexists; reflexivity).
  contradiction.
Qed.

(** X13: the computation writes nothing: manifests, metadata, WAV files,
    text files and the record of events are after it as before it, whether
    it returns or raises. *)
Theorem compute_haspi_for_signal_writes_nothing name path w :
  let w' := snd (compute_haspi_for_signal name path w) in
  manifests w' = manifests w /\ json_files w' = json_files w
  /\ wav_files w' = wav_files w /\ text_files w' = text_files w
  /\ trace w' = trace w.
Proof. exact (quiet_compute_haspi_for_signal name path w). Qed.

Lemma reads_ret {A} (a : A) : reads_inputs_only (ret a).
Proof. intros w1 w2 H. now split. Qed.

Lemma reads_lift {A} (r : result A) : reads_inputs_only (lift r).
Proof. intros w1 w2 H. now split. Qed.

Lemma reads_bind {A B} (m : M A) (k : A -> M B) :
  reads_inputs_only m -> (forall a, reads_inputs_only (k a)) ->
  reads_inputs_only (bind m k).
Proof.
  intros Hm Hk w1 w2 H. unfold bind. destruct (Hm w1 w2 H) as [Hfst Hsnd].
  destruct (m w1) as [[a1|e1] w1'], (m w2) as [[a2|e2] w2'];
    cbn [fst snd] in *; try discriminate.
  - injection Hfst as <-. now apply Hk.
  - injection Hfst as <-. split; [reflexivity | assumption].
Qed.

Lemma reads_json_load f : reads_inputs_only (json_load f).
Proof.
  intros w1 w2 H. unfold json_load. destruct H as (Hj & Hw & Hr).
  rewrite Hj. destruct (json_files w2 f); cbn [fst snd];
    (split; [reflexivity | repeat split; congruence]).
Qed.

Lemma reads_wavfile_read f : reads_inputs_only (wavfile_read f).
Proof.
  intros w1 w2 H. unfold wavfile_read. destruct H as (Hj & Hw & Hr).
  rewrite Hw. destruct (wav_files w2 f); cbn [fst snd];
    (split; [reflexivity | repeat split; congruence]).
Qed.

Lemma reads_assert b : reads_inputs_only (assert b).
Proof. intros w1 w2 H. unfold assert. destruct b; now split. Qed.

Lemma reads_call_haspi_v2_be args : reads_inputs_only (call_haspi_v2_be args).
Proof.
  intros w1 w2 (Hj & Hw & Hr). unfold call_haspi_v2_be. rewrite Hr.
  destruct (haspi_v2_be args (np_random w2)) as [r st]. cbn [fst snd].
  split; [reflexivity | repeat split; cbn; congruence].
Qed.

Ltac reads_step :=
  first [ apply reads_ret | apply reads_lift | apply reads_json_load
        | apply reads_wavfile_read | apply reads_assert
        | apply reads_call_haspi_v2_be
        | apply reads_bind; [|intros] ].

(** The outcome of the computation is a function of the metadata, the WAV
    files and the state of the generator. *)
Lemma reads_compute_haspi_for_signal name path :
  reads_inputs_only (compute_haspi_for_signal name path).
Proof.
  unfold compute_haspi_for_signal.
  repeat (reads_step; repeat match goal with
                             | x : (_ * _)%type |- _ => destruct x
                             end).
Qed.

(** X14: with the seed set from the signal name first, as the driver does
    when [set_random_seed] is on, the outcome for a signal does not depend
    on what the generator held before, nor on the log or the events so far:
    two worlds with the same metadata and WAV files give the same score. *)
Theorem seeded_score_ignores_history name path w1 w2 :
  json_files w1 = json_files w2 -> wav_files w1 = wav_files w2 ->
  let seeded := fun w =>
    compute_haspi_for_signal name path (snd (set_seed_with_string name w)) in
  fst (seeded w1) = fst (seeded w2)
  /\ np_random (snd (seeded w1)) = np_random (snd (seeded w2)).
Proof.
  intros Hj Hw seeded. unfold seeded.
  rewrite !set_seed_with_string_eq. cbn [snd].
  destruct (reads_compute_haspi_for_signal name path
              (set_np_random (mt_seed (seed_of_string name)) w1)
              (set_np_random (mt_seed (seed_of_string name)) w2))
    as (Hfst & _ & _ & Hrng).
  - repeat split; assumption.
  - split; assumption.
Qed.

End ScoreFacts.

(** ** More on the driver *)

Section MoreDriverFacts.

Context {E : Externals}.

Local Open Scope list_scope.

(** The driver as a cascade: the manifest, the log, its index, the
    selection, and then the loop. *)
Lemma run_calculate_haspi_cascade cfg w :
  run_calculate_haspi cfg w
  = match manifests w (path_join (metadata_dir (path cfg))
                                 (dataset cfg ++ ".json")%string) with
    | None =>
        (Raise (FileNotFoundError
                  (path_join (metadata_dir (path cfg))
                             (dataset cfg ++ ".json")%string)), w)
    | Some records =>
        match map_result json_loads (log_lines w (results_file_name cfg)) with
        | Raise e => (Raise e, w)
        | Ok results =>
            match build_results_index results with
            | Raise e => (Raise e, w)
            | Ok index =>
                match select_records cfg index records with
                | Raise e => (Raise e, w)
                | Ok selected =>
                    for_each (score_and_append cfg (results_file_name cfg))
                             selected w
                end
            end
        end
    end.
Proof.
  unfold run_calculate_haspi, bind, load_manifest, file_exists, read_jsonl,
    lift, ret, log_lines.
  destruct (manifests w _) as [records|]; [|reflexivity].
  destruct (text_files w (results_file_name cfg)) as [lines|] eqn:Hfile;
    cbv beta iota; rewrite ?Hfile.
  - destruct (map_result json_loads lines) as [results|]; [|reflexivity].
    destruct (build_results_index results) as [index|]; [|reflexivity].
    now destruct (select_records cfg index records).
  - cbn [map_result build_results_index].
    now destruct (select_records cfg [] records).
Qed.

(** X15: without the manifest file the driver raises a not-found error
    that names it, and it creates no results file. *)
Theorem missing_manifest_aborts cfg w :
  let manifest := path_join (metadata_dir (path cfg))
                            (dataset cfg ++ ".json")%string in
  manifests w manifest = None ->
  run_calculate_haspi cfg w = (Raise (FileNotFoundError manifest), w).
Proof.
  intros manifest Hnone. rewrite run_calculate_haspi_cascade.
  fold manifest. now rewrite Hnone.
Qed.

(** X16: a batch count of zero is not refused by the configuration: the
    log is named without a batch suffix, and once the manifest and the log
    are read the slice raises, before any signal is scored. *)
Theorem zero_batches_raise cfg w records results index :
  n_batches (compute_haspi cfg) = 0%Z ->
  manifests w (path_join (metadata_dir (path cfg))
                         (dataset cfg ++ ".json")%string)
  = Some records ->
  map_result json_loads (log_lines w (results_file_name cfg)) = Ok results ->
  build_results_index results = Ok index ->
  results_file_name cfg = (dataset cfg ++ ".haspi.jsonl")%string
  /\ run_calculate_haspi cfg w
     = (Raise (ValueError "slice step cannot be zero"), w).
Proof.
  intros Hn Hm Hread Hindex. split.
  - unfold results_file_name. now rewrite Hn.
  - rewrite run_calculate_haspi_cascade, Hm, Hread, Hindex.
    unfold select_records, Slice.from_step. now rewrite Hn.
Qed.

(** X17: a results log that cannot be read back aborts the run before any
    signal is scored: when a line does not parse, or a parsed line cannot
    be indexed, the driver raises that error and leaves every file,
    the log included, as it was. *)
Theorem unreadable_log_aborts cfg w records e :
  manifests w (path_join (metadata_dir (path cfg))
                         (dataset cfg ++ ".json")%string)
  = Some records ->
  map_result json_loads (log_lines w (results_file_name cfg)) = Raise e
  \/ (exists results,
        map_result json_loads (log_lines w (results_file_name cfg))
        = Ok results
        /\ build_results_index results = Raise e) ->
  run_calculate_haspi cfg w = (Raise e, w).
Proof.
  intros Hm [Hread|(results & Hread & Hindex)];
    rewrite run_calculate_haspi_cascade, Hm, Hread; [reflexivity|].
  now rewrite Hindex.
Qed.

Lemma build_results_index_app good bad index :
  build_results_index good = Ok index ->
  build_results_index (good ++ bad)
  = match build_results_index bad with
    | Ok index' => Ok (index ++ index')
    | Raise e => Raise e
    end.
Proof.
  revert index. induction good as [|r good IH]; intros index H;
    cbn [build_results_index app] in *.
  - injection H as <-. now destruct (build_results_index bad).
  - destruct (getitem r "signal") as [key|]; [|discriminate].
    destruct (hashable key); [|discriminate].
    destruct (build_results_index good) as [index0|]; [|discriminate].
    injection H as <-. rewrite (IH index0 eq_refl).
    now destruct (build_results_index bad).
Qed.

(** X18: the index of the log is built record by record, and the first
    record that is no object with a [signal] member stops it: an object
    without the member raises the key error for [signal], and a signal
    that is a list or an object raises a type error. *)
Theorem first_unindexable_record_stops_the_index good index bad rest :
  build_results_index good = Ok index ->
  (forall members, bad = JObj members -> assoc "signal" members = None ->
     build_results_index (good ++ bad :: rest) = Raise (KeyError "signal"))
  /\ (forall key, getitem bad "signal" = Ok key -> hashable key = false ->
        build_results_index (good ++ bad :: rest)
        = Raise (TypeError "unhashable type")).
Proof.
  intros Hgood. split.
  - intros members -> Hnone.
    rewrite (build_results_index_app _ _ _ Hgood).
    cbn [build_results_index getitem]. now rewrite Hnone.
  - intros key Hkey Hhash.
    rewrite (build_results_index_app _ _ _ Hgood).
    cbn [build_results_index]. now rewrite Hkey, Hhash.
Qed.

Lemma pick_nil {A} ps : Slice.pick (@nil A) ps = [].
Proof.
  induction ps as [|p ps IH]; cbn [Slice.pick flat_map]; [reflexivity|].
  destruct (Z.to_nat p); cbn [nth_error app]; exact IH.
Qed.

(** X19: batch number 0 is not refused either: the start [-1] of the slice
    counts from the end, so the run works on the last unscored record
    alone, and on nothing when none is left. *)
Theorem batch_zero_takes_the_last_record cfg index records :
  batch (compute_haspi cfg) = 0%Z ->
  (1 <= n_batches (compute_haspi cfg))%Z ->
  (unscored index records = [] ->
   select_records cfg index records = Ok [])
  /\ (forall front r, unscored index records = front ++ [r] ->
        select_records cfg index records = Ok [r]).
Proof.
  intros Hb Hn. unfold select_records, Slice.from_step. rewrite Hb.
  destruct (Z.eqb_spec (n_batches (compute_haspi cfg)) 0); [lia|].
  split.
  - intros ->. now rewrite pick_nil.
  - intros front r ->. f_equal.
    unfold Slice.positions, Slice.adjust_start, Slice.default_stop,
      Slice.length.
    rewrite length_app, Nat.add_1_r, Nat2Z.inj_succ. cbn [List.length].
    set (len := Z.of_nat (List.length front)).
    assert (Hlen : (0 <= len)%Z) by (unfold len; lia).
    change (0 - 1)%Z with (-1)%Z.
    destruct (Z.ltb_spec (-1) 0); [|lia].
    destruct (Z.ltb_spec (-1 + Z.succ len) 0); [lia|].
    destruct (Z.ltb_spec (n_batches (compute_haspi cfg)) 0); [lia|].
    destruct (Z.ltb_spec (-1 + Z.succ len) (Z.succ len)); [|lia].
    replace (Z.succ len - (-1 + Z.succ len) - 1)%Z with 0%Z by lia.
    rewrite Z.div_0_l by lia.
    change (Z.to_nat (0 + 1)) with 1%nat. cbn [seq map].
    change (Z.of_nat 0) with 0%Z. rewrite Z.mul_0_l, Z.add_0_r.
    replace (-1 + Z.succ len)%Z with len by lia.
    unfold Slice.pick, len. cbn [flat_map]. rewrite Nat2Z.id.
    rewrite nth_error_app2, Nat.sub_diag by lia. reflexivity.
Qed.

(** X20: with an empty manifest, a readable log and a batch count other
    than zero, the run completes and leaves the world exactly as it was: no
    score is computed and no results file is created. *)
Theorem empty_manifest_is_a_no_op cfg w results index :
  manifests w (path_join (metadata_dir (path cfg))
                         (dataset cfg ++ ".json")%string)
  = Some [] ->
  map_result json_loads (log_lines w (results_file_name cfg)) = Ok results ->
  build_results_index results = Ok index ->
  n_batches (compute_haspi cfg) <> 0%Z ->
  run_calculate_haspi cfg w = (Ok tt, w).
Proof.
  intros Hm Hread Hindex Hn.
  rewrite run_calculate_haspi_cascade, Hm, Hread, Hindex.
  unfold select_records, Slice.from_step, unscored. cbn [filter].
  apply Z.eqb_neq in Hn. rewrite Hn, pick_nil. reflexivity.
Qed.


(** X21: a run scores the selected records in their order and stops at the
    first one that raises: the lines it appends are those of a prefix of
    the selection, the whole of it when the run completes and a proper
    prefix when it raises. *)
Theorem run_scores_a_prefix_of_the_selection
  cfg w records results index selected :
  manifests w (path_join (metadata_dir (path cfg))
                         (dataset cfg ++ ".json")%string)
  = Some records ->
  map_result json_loads (log_lines w (results_file_name cfg)) = Ok results ->
  build_results_index results = Ok index ->
  select_records cfg index records = Ok selected ->
  exists scored,
    log_lines (snd (run_calculate_haspi cfg w)) (results_file_name cfg)
    = log_lines w (results_file_name cfg) ++ map result_line scored
    /\ map fst scored = map signal (firstn (List.length scored) selected)
    /\ match fst (run_calculate_haspi cfg w) with
       | Ok _ => List.length scored = List.length selected
       | Raise _ => (List.length scored < List.length selected)%nat
       end.
Proof.
  intros Hm Hread Hindex Hsel.
  rewrite (run_calculate_haspi_eq cfg w records results index selected
             Hm Hread Hindex Hsel).
  destruct (for_each_shape cfg (results_file_name cfg) selected w)
    as (scored & inflight & Hgrown & Hnames & Hend).
  destruct Hgrown as (Hlog & _).
  exists scored. split; [assumption|]. split; [assumption|].
  destruct (fst (for_each (score_and_append cfg (results_file_name cfg))
                          selected w)).
  - apply Hend.
  - destruct Hend as (r & Hr & _).
    apply nth_error_Some. congruence.
Qed.

(** The keys of the index come from lines of the log. *)
Lemma index_keys_are_logged lines : forall results index name,
  map_result json_loads lines = Ok results ->
  build_results_index results = Ok index ->
  in_keys name index = true ->
  exists line, In line lines /\ logged_signal line = Ok (JStr name).
Proof.
  induction lines as [|l rest IH]; intros results index name Hread Hindex Hkey;
    cbn [map_result] in Hread.
  - injection Hread as <-. cbn in Hindex. injection Hindex as <-.
    discriminate.
  - destruct (json_loads l) as [j|] eqn:Hj; [|discriminate].
    destruct (map_result json_loads rest) as [js|]; [|discriminate].
    injection Hread as <-. cbn [build_results_index] in Hindex.
    destruct (getitem j "signal") as [key|] eqn:Hget; [|discriminate].
    destruct (hashable key); [|discriminate].
    destruct (build_results_index js) as [index'|] eqn:Hindex'; [|discriminate].
    injection Hindex as <-. cbn [in_keys existsb fst] in Hkey.
    apply orb_true_iff in Hkey as [Hhead|Htail].
    + exists l. split; [now left|]. unfold logged_signal. rewrite Hj, Hget.
      destruct key; try discriminate.
      apply String.eqb_eq in Hhead. now subst.
    + destruct (IH js index' name eq_refl Hindex' Htail) as (line & Hin & Hl).
      exists line. split; [now right | assumption].
Qed.

(** With a single batch, a run that completes appends one line for each
    manifest record that has no key in the index of the log, in manifest
    order, and afterwards every signal of the manifest has a line that
    reads back under its name. *)
Lemma single_batch_run_covers_the_manifest cfg w records results index :
  batch (compute_haspi cfg) = 1%Z ->
  n_batches (compute_haspi cfg) = 1%Z ->
  manifests w (path_join (metadata_dir (path cfg))
                         (dataset cfg ++ ".json")%string)
  = Some records ->
  map_result json_loads (log_lines w (results_file_name cfg)) = Ok results ->
  build_results_index results = Ok index ->
  (forall r h, In r records ->
     logged_signal (json_dumps (result_record (signal r) h))
     = Ok (JStr (signal r))) ->
  fst (run_calculate_haspi cfg w) = Ok tt ->
  (exists scored,
      log_lines (snd (run_calculate_haspi cfg w)) (results_file_name cfg)
      = log_lines w (results_file_name cfg) ++ map result_line scored
      /\ map fst scored = map signal (unscored index records))
  /\ forall r, In r records ->
       logged (snd (run_calculate_haspi cfg w)) (results_file_name cfg)
              (signal r).
Proof.
  intros Hb Hn Hm Hread Hindex Hjson Hdone.
  assert (Hsel : select_records cfg index records
                 = Ok (unscored index records)).
  { unfold select_records. rewrite Hb, Hn. apply from_step_single_batch. }
  rewrite (run_calculate_haspi_eq cfg w records results index _
             Hm Hread Hindex Hsel) in *.
  destruct (for_each_shape cfg (results_file_name cfg)
                           (unscored index records) w)
    as (scored & inflight & Hgrown & Hnames & Hend).
  rewrite Hdone in Hend. destruct Hend as [_ Hlen].
  rewrite Hlen, firstn_all in Hnames.
  destruct Hgrown as (Hlog & _).
  split; [exists scored; split; assumption|].
  intros r Hr. unfold logged. rewrite Hlog.
  destruct (in_keys (signal r) index) eqn:Hkey.
  - destruct (index_keys_are_logged _ _ _ _ Hread Hindex Hkey)
      as (line & Hin & Hline).
    exists line. split; [apply in_or_app; now left | assumption].
  - assert (Hun : In r (unscored index records)).
    { unfold unscored. apply filter_In. split; [assumption|].
      now rewrite Hkey. }
    assert (Hname : In (signal r) (map fst scored)).
    { rewrite Hnames. now apply in_map. }
    apply in_map_iff in Hname as (d & Hd & Hin).
    exists (result_line d). split.
    + apply in_or_app. right. now apply in_map.
    + unfold result_line. rewrite Hd. now apply Hjson.
Qed.

(** X22: an interrupted run is completed by the next one.  With a single
    batch, let a first run start without a log and end as it may, at an
    exception of whatever record or not at all;
    let the driver then be started again on the same manifest with the log
    as the first run left it (the metadata and the WAV files may have been
    repaired meanwhile).  If this second run completes, the log is the
    lines of the first run followed by those of the second, and every
    signal of the manifest has a record in it.  (The lines written must
    read back under their signal name.) *)
Theorem resumed_run_completes_the_log cfg w0 w2 records :
  batch (compute_haspi cfg) = 1%Z ->
  n_batches (compute_haspi cfg) = 1%Z ->
  manifests w0 (path_join (metadata_dir (path cfg))
                          (dataset cfg ++ ".json")%string)
  = Some records ->
  log_lines w0 (results_file_name cfg) = [] ->
  (forall r h, In r records ->
     logged_signal (json_dumps (result_record (signal r) h))
     = Ok (JStr (signal r))) ->
  manifests w2 (path_join (metadata_dir (path cfg))
                          (dataset cfg ++ ".json")%string)
  = Some records ->
  text_files w2 = text_files (snd (run_calculate_haspi cfg w0)) ->
  fst (run_calculate_haspi cfg w2) = Ok tt ->
  (exists scored1 scored2,
      log_lines (snd (run_calculate_haspi cfg w0)) (results_file_name cfg)
      = map result_line scored1
      /\ log_lines (snd (run_calculate_haspi cfg w2)) (results_file_name cfg)
         = map result_line (scored1 ++ scored2))
  /\ forall r, In r records ->
       logged (snd (run_calculate_haspi cfg w2)) (results_file_name cfg)
              (signal r).
Proof.
  intros Hb Hn Hm0 Hempty Hjson Hm2 Hfiles Hdone.
  assert (Hfirst : exists scored1,
             log_lines (snd (run_calculate_haspi cfg w0)) (results_file_name cfg)
             = map result_line scored1
             /\ forall d, In d scored1 ->
                  exists r, In r records /\ signal r = fst d).
  { destruct (run_calculate_haspi_cases cfg w0)
      as [[e He]|(records' & results & index & selected
                  & Hm & Hread & Hindex & Hsel & Hrun)].
    - exists []. rewrite He. cbn [snd map]. split; [assumption|].
      intros d [].
    - rewrite Hm0 in Hm. injection Hm as <-.
      destruct (for_each_shape cfg (results_file_name cfg) selected w0)
        as (scored & inflight & Hgrown & Hnames & _).
      rewrite <- Hrun in Hgrown. destruct Hgrown as (Hlog & _).
      rewrite Hempty in Hlog. cbn [app] in Hlog.
      exists scored. split; [assumption|].
      intros d Hd.
      assert (Hin : In (fst d) (map fst scored)) by now apply in_map.
      rewrite Hnames in Hin. apply in_map_iff in Hin as (r & Hr & Hin).
      apply in_firstn in Hin.
      destruct (selected_not_logged cfg w0 _ results index records selected
                  eq_refl Hread Hindex Hsel r Hin) as [Hrec _].
      now exists r. }
  destruct Hfirst as (scored1 & Hlog1 & Hfrom).
  assert (Hlines : Forall2 (fun line name => logged_signal line = Ok (JStr name))
                           (map result_line scored1) (map fst scored1)).
  { clear Hlog1. induction scored1 as [|d scored1 IH]; cbn [map]; constructor.
    - destruct (Hfrom d (or_introl eq_refl)) as (r & Hr & Hsig).
      unfold result_line. rewrite <- Hsig. now apply Hjson.
    - apply IH. intros d' Hd'. apply Hfrom. now right. }
  destruct (index_of_logged_lines _ _ Hlines)
    as (results & index & Hread & Hindex & _).
  assert (Hlog2 : log_lines w2 (results_file_name cfg)
                  = map result_line scored1).
  { rewrite <- Hlog1. unfold log_lines. now rewrite Hfiles. }
  rewrite <- Hlog2 in Hread.
  destruct (single_batch_run_covers_the_manifest cfg w2 records results index
              Hb Hn Hm2 Hread Hindex Hjson Hdone)
    as ((scored2 & Hlog & _) & Hall).
  split; [|exact Hall].
  exists scored1, scored2. split; [exact Hlog1|].
  now rewrite Hlog, Hlog2, map_app.
Qed.

(** X23: a run never changes its inputs: the manifests, the listener
    metadata and the WAV files are after it as before it, whether it
    completes or raises. *)
Theorem run_leaves_the_inputs_alone cfg w :
  let w' := snd (run_calculate_haspi cfg w) in
  manifests w' = manifests w /\ json_files w' = json_files w
  /\ wav_files w' = wav_files w.
Proof.
  destruct (run_calculate_haspi_shape cfg w)
    as (selected & scored & inflight & Hgrown & _).
  destruct Hgrown as (_ & _ & Hm & Hj & Hw & _).
  repeat split; assumption.
Qed.

Lemma length_pick {A} (l : list A) ps :
  (List.length (Slice.pick l ps) <= List.length ps)%nat.
Proof.
  induction ps as [|p ps IH]; cbn [Slice.pick flat_map List.length]; [lia|].
  rewrite length_app.
  destruct (nth_error l (Z.to_nat p)); cbn [List.length];
    fold (Slice.pick l ps); lia.
Qed.

Lemma length_positions len start step :
  (0 <= len)%Z -> step <> 0%Z ->
  (Z.of_nat (List.length (Slice.positions len start step)) <= len)%Z.
Proof.
  intros Hlen Hstep. unfold Slice.positions.
  rewrite length_map, length_seq.
  set (s := Slice.adjust_start len start step).
  assert (Hs : (if (step <? 0)%Z then -1 <= s <= len - 1 else 0 <= s <= len)%Z).
  { unfold s, Slice.adjust_start.
    destruct (Z.ltb_spec start 0), (Z.ltb_spec step 0);
      try destruct (Z.ltb_spec (start + len) 0);
      try destruct (Z.leb_spec len start); lia. }
  unfold Slice.length, Slice.default_stop.
  destruct (Z.ltb_spec step 0).
  - destruct (Z.ltb_spec (-1) s); [|cbn; lia].
    assert (Hq : (0 <= (s - -1 - 1) / - step <= s - -1 - 1)%Z).
    { split; [apply Z.div_pos; lia|].
      apply Z.div_le_upper_bound; [lia|]. nia. }
    lia.
  - destruct (Z.ltb_spec s len); [|cbn; lia].
    assert (Hq : (0 <= (len - s - 1) / step <= len - s - 1)%Z).
    { split; [apply Z.div_pos; lia|].
      apply Z.div_le_upper_bound; [lia|]. nia. }
    lia.
Qed.

(** X25: whatever the batch numbers, the records a run selects are
    manifest records that have no key in the index of the log, and there
    are no more of them than there are unscored records. *)
Theorem selection_is_within_the_unscored cfg index records selected :
  select_records cfg index records = Ok selected ->
  (forall r, In r selected ->
     In r records /\ in_keys (signal r) index = false)
  /\ (List.length selected <= List.length (unscored index records))%nat.
Proof.
  unfold select_records, Slice.from_step.
  destruct (Z.eqb_spec (n_batches (compute_haspi cfg)) 0) as [|Hstep];
    [discriminate|].
  intros H. injection H as <-. split.
  - intros r Hr. apply pick_incl in Hr. unfold unscored in Hr.
    apply filter_In in Hr as [Hin Hkey]. split; [assumption|].
    now apply negb_true_iff in Hkey.
  - pose proof (length_pick (unscored index records)
                  (Slice.positions
                     (Z.of_nat (List.length (unscored index records)))
                     (batch (compute_haspi cfg) - 1)
                     (n_batches (compute_haspi cfg)))) as Hpick.
    pose proof (length_positions
                  (Z.of_nat (List.length (unscored index records)))
                  (batch (compute_haspi cfg) - 1)
                  (n_batches (compute_haspi cfg)) ltac:(lia) Hstep) as Hpos.
    lia.
Qed.

End MoreDriverFacts.

(** ** The names of the logs *)

Lemma append_cancel_l (a x y : string) :
  (a ++ x = a ++ y)%string -> x = y.
Proof.
  induction a as [|c a IH]; cbn [append]; [trivial|].
  intros H. injection H as H. now apply IH.
Qed.

Lemma length_append (x y : string) :
  String.length (x ++ y)%string = (String.length x + String.length y)%nat.
Proof. induction x as [|c x IH]; cbn; [reflexivity | now rewrite IH]. Qed.

Lemma append_cancel_r (t : string) : forall x y : string,
  (x ++ t = y ++ t)%string -> x = y.
Proof.
  induction x as [|c x IH]; intros [|d y] H; cbn [append] in H.
  - reflexivity.
  - apply (f_equal String.length) in H. cbn in H.
    rewrite length_append in H. lia.
  - apply (f_equal String.length) in H. cbn in H.
    rewrite length_append in H. lia.
  - injection H as -> H. f_equal. now apply IH.
Qed.

Lemma str_of_int_inj (m n : Z) : str_of_int m = str_of_int n -> m = n.
Proof.
  unfold str_of_int. intros H. apply DecimalZ.to_int_inj.
  pose proof (NilEmpty.isi (Z.to_int m)) as Hm.
  rewrite H, NilEmpty.isi in Hm. now injection Hm.
Qed.

(** X24: with more than one batch, two shards of the same dataset and the
    same batch count keep their results in different files unless they are
    the same shard. *)
Theorem shards_keep_separate_logs cfg1 cfg2 :
  dataset cfg1 = dataset cfg2 ->
  n_batches (compute_haspi cfg1) = n_batches (compute_haspi cfg2) ->
  (1 < n_batches (compute_haspi cfg1))%Z ->
  results_file_name cfg1 = results_file_name cfg2 ->
  batch (compute_haspi cfg1) = batch (compute_haspi cfg2).
Proof.
  intros Hd Hn Hmany. unfold results_file_name.
  rewrite <- Hn, <- Hd. apply Z.ltb_lt in Hmany. rewrite Hmany.
  intros H. apply append_cancel_l in H.
  cbn [append] in H. injection H as H.
  rewrite !StrFacts.append_assoc in H.
  apply append_cancel_r in H. now apply str_of_int_inj.
Qed.

(** * The theorems at work on the concrete setting *)

Local Open Scope list_scope.

#[local] Existing Instance Demo.externals.

(** Shard 2 of 3 of the fresh manifest [a; b; c] takes the record at
    manifest index 1. *)
Lemma shard_is_residue_class_of_unscored_witness :
  exists selected,
    select_records (Demo.config "abc" 2 3) [] [Demo.a; Demo.b; Demo.c]
    = Ok selected
    /\ Forall2 (fun p r => nth_error [Demo.a; Demo.b; Demo.c] (Z.to_nat p)
                           = Some r)
               (residue_class 3 1 3) selected.
Proof.
  destruct (shard_is_residue_class_of_unscored
              (Demo.config "abc" 2 3) [] [Demo.a; Demo.b; Demo.c])
    as (selected & Hsel & Hpos & _).
  - cbn. lia.
  - exists selected. split; [exact Hsel | exact Hpos].
Defined.

(** C1 as stated fails on a resumed run: with the score of [a] in the log
    of shard 1 of 2, the shard works on [b], which stands at manifest index
    1, and not on [c], which stands at manifest index 2. *)
Lemma resumed_shard_is_not_by_manifest_index :
  select_records (Demo.config "abc" 1 2)
                 [(JStr "S1_L1_E1", result_record "S1_L1_E1" 0.5%float)]
                 [Demo.a; Demo.b; Demo.c]
  = Ok [Demo.b]
  /\ nth_error [Demo.a; Demo.b; Demo.c] 1 = Some Demo.b
  /\ (1 mod 2 <> 1 - 1)%Z
  /\ nth_error [Demo.a; Demo.b; Demo.c] 2 = Some Demo.c
  /\ (2 mod 2 = 1 - 1)%Z
  /\ trace (snd (run_calculate_haspi
                   (Demo.config "abc" 1 2)
                   (Demo.resumed "abc.haspi.1_2.jsonl")))
     = [Scoring "S2_L1_E1";
        Appended "abc.haspi.1_2.jsonl"
                 (Demo.dumps (result_record "S2_L1_E1" 0.5%float))].
Proof. vm_compute. repeat split; discriminate. Qed.

(** Two runs over the manifest [a; b; c], single batch, from no log. *)
Lemma rerun_keeps_one_record_per_signal_witness :
  fst (run_calculate_haspi
         (Demo.config "abc" 1 1)
         (snd (run_calculate_haspi (Demo.config "abc" 1 1) Demo.fresh)))
  = Ok tt.
Proof.
  apply (rerun_keeps_one_record_per_signal
           (E := Demo.externals) (Demo.config "abc" 1 1) Demo.fresh
           [Demo.a; Demo.b; Demo.c]).
  - reflexivity.
  - reflexivity.
  - reflexivity.
  - repeat constructor; cbn; intuition discriminate.
  - reflexivity.
  - intros r h [<-|[<-|[<-|[]]]]; unfold logged_signal;
      cbn [json_dumps json_loads Demo.externals];
      unfold Demo.dumps, Demo.repr_float, result_record;
      cbn [getitem assoc String.eqb Ascii.eqb Bool.eqb signal Demo.a Demo.b Demo.c];
      destruct (PrimFloat.eqb h 0.5); reflexivity.
  - vm_compute. reflexivity.
Defined.

(** C3 as stated fails on a manifest that names a signal twice: both
    records are scored in the first run, so the log holds two lines for the
    one name, and the second run leaves them there.  It fails also with
    more than one batch: shard 1 of 3 of [a; b; c] logs [a], the same shard
    run again logs [b] as well, and [c] is still missing. *)
Lemma duplicate_names_are_logged_twice :
  let line := fun name => Demo.dumps (result_record name 0.5%float) in
  let once := run_calculate_haspi (Demo.config "twice" 1 1) Demo.fresh in
  let twice := run_calculate_haspi (Demo.config "twice" 1 1) (snd once) in
  let shard := run_calculate_haspi (Demo.config "abc" 1 3) Demo.fresh in
  let shard_again := run_calculate_haspi (Demo.config "abc" 1 3) (snd shard) in
  manifests Demo.fresh "metadata/twice.json" = Some [Demo.a; Demo.a]
  /\ fst once = Ok tt /\ fst twice = Ok tt
  /\ log_lines (snd twice) "twice.haspi.jsonl"
     = [line "S1_L1_E1"; line "S1_L1_E1"]
  /\ manifests Demo.fresh "metadata/abc.json" = Some [Demo.a; Demo.b; Demo.c]
  /\ fst shard = Ok tt /\ fst shard_again = Ok tt
  /\ log_lines (snd shard) "abc.haspi.1_3.jsonl" = [line "S1_L1_E1"]
  /\ log_lines (snd shard_again) "abc.haspi.1_3.jsonl"
     = [line "S1_L1_E1"; line "S2_L1_E1"].
Proof. vm_compute. repeat split. Qed.

(** A run over [a; b; c] that finds the score of [a] in the log. *)
Lemma logged_signal_is_skipped_witness :
  exists scored inflight,
    log_lines (snd (run_calculate_haspi (Demo.config "abc" 1 1)
                                        (Demo.resumed "abc.haspi.jsonl")))
              "abc.haspi.jsonl"
    = log_lines (Demo.resumed "abc.haspi.jsonl") "abc.haspi.jsonl"
      ++ map result_line scored
    /\ Forall (fun d => fst d <> "S1_L1_E1") scored
    /\ ~ In (Scoring "S1_L1_E1")
            (scoring_events "abc.haspi.jsonl" scored ++ inflight).
Proof.
  destruct (logged_signal_is_skipped
              (E := Demo.externals) (Demo.config "abc" 1 1)
              (Demo.resumed "abc.haspi.jsonl") "S1_L1_E1")
    as (scored & inflight & Hlog & _ & Hscored & Hevents).
  - exists (Demo.dumps (result_record "S1_L1_E1" 0.5%float)).
    split; [left; reflexivity | vm_compute; reflexivity].
  - exists scored, inflight. repeat split; assumption.
Defined.

(** The score of a stereo signal at equal rates is the scorer's; at
    different rates the computation stops at the assertion. *)
Lemma compute_haspi_for_signal_spec_witness :
  compute_haspi_for_signal "S1_L1_E1" Demo.paths Demo.fresh
  = call_haspi_v2_be
      {| reference_left := map normalize [0; 16384; -32768]%Z;
         reference_right := map normalize [32767; -1; 8192]%Z;
         processed_left := map normalize [0; 16384; -32768]%Z;
         processed_right := map normalize [32767; -1; 8192]%Z;
         fs_signal := 44100;
         audiogram_left := JArr [JInt 10; JInt 20; JInt 40];
         audiogram_right := JArr [JInt 15; JInt 25; JInt 45];
         audiogram_cfs := JArr [JInt 250; JInt 1000; JInt 4000] |}
      Demo.fresh
  /\ compute_haspi_for_signal "S8_L1_E1" Demo.paths Demo.fresh
     = (Raise AssertionError, Demo.fresh).
Proof.
  split.
  - apply (proj1 (proj2 (compute_haspi_for_signal_spec
                           (E := Demo.externals)
                           "S1_L1_E1" Demo.paths Demo.fresh "S1" "L1" "E1"
                           (JObj [("L1", Demo.audiogram)]) Demo.audiogram
                           (JArr [JInt 10; JInt 20; JInt 40])
                           (JArr [JInt 15; JInt 25; JInt 45])
                           (JArr [JInt 250; JInt 1000; JInt 4000])
                           (Demo.stereo 44100) (Demo.stereo 44100)
                           [0; 16384; -32768]%Z [32767; -1; 8192]%Z []
                           [0; 16384; -32768]%Z [32767; -1; 8192]%Z []
                           eq_refl eq_refl eq_refl eq_refl eq_refl eq_refl
                           eq_refl eq_refl eq_refl eq_refl))).
    reflexivity.
  - apply (proj1 (compute_haspi_for_signal_spec
                    (E := Demo.externals)
                    "S8_L1_E1" Demo.paths Demo.fresh "S8" "L1" "E1"
                    (JObj [("L1", Demo.audiogram)]) Demo.audiogram
                    (JArr [JInt 10; JInt 20; JInt 40])
                    (JArr [JInt 15; JInt 25; JInt 45])
                    (JArr [JInt 250; JInt 1000; JInt 4000])
                    (Demo.stereo 16000) (Demo.stereo 44100)
                    [0; 16384; -32768]%Z [32767; -1; 8192]%Z []
                    [0; 16384; -32768]%Z [32767; -1; 8192]%Z []
                    eq_refl eq_refl eq_refl eq_refl eq_refl eq_refl
                    eq_refl eq_refl eq_refl eq_refl)).
    discriminate.
Defined.

(** C6 as stated fails on mono files: the audiogram and both WAV files are
    there, the sample rates are equal, and the computation raises. *)
Lemma mono_files_fail_at_equal_rates :
  parse_cec2_signal_name "S9_L1_E1" = Ok ("S9", "L1", "E1")
  /\ json_files Demo.fresh "metadata/listeners.json"
     = Some (JObj [("L1", Demo.audiogram)])
  /\ wav_files Demo.fresh "signals/S9_L1_E1.wav" = Some (Demo.mono 44100)
  /\ wav_files Demo.fresh "scenes/S9_target_ref.wav" = Some (Demo.mono 44100)
  /\ rate (Demo.mono 44100) = rate (Demo.mono 44100)
  /\ fst (compute_haspi_for_signal "S9_L1_E1" Demo.paths Demo.fresh)
     = Raise (IndexError "too many indices for array").
Proof. vm_compute. repeat split. Qed.

(** Shard 1 of 2 of the fresh manifest [a; b; c]: the file is named after
    the shard, and the run leaves in it one line for [a] and one for [c]. *)
Lemma results_file_and_lines_witness :
  results_file_name (Demo.config "abc" 1 2) = "abc.haspi.1_2.jsonl"%string
  /\ exists scored,
      log_lines (snd (run_calculate_haspi (Demo.config "abc" 1 2) Demo.fresh))
                "abc.haspi.1_2.jsonl"
      = map (fun d : string * float =>
               Demo.dumps (JObj [("signal", JStr (fst d));
                                 ("haspi", JFloat (snd d))])) scored
      /\ map fst scored = ["S1_L1_E1"; "S3_L1_E1"]%string.
Proof.
  pose proof (results_file_and_lines
                (E := Demo.externals) (Demo.config "abc" 1 2) Demo.fresh)
    as Hall.
  cbv zeta in Hall. destruct Hall as (Hname & _ & _ & Hwrites).
  split; [apply Hname; reflexivity|].
  destruct (Hwrites [Demo.a; Demo.b; Demo.c] [] [] [Demo.a; Demo.c]
                    eq_refl eq_refl eq_refl eq_refl)
    as (scored & Hlog & Hturns & Hend).
  assert (Hdone : fst (run_calculate_haspi (Demo.config "abc" 1 2) Demo.fresh)
                  = Ok tt) by (vm_compute; reflexivity).
  rewrite Hdone in Hend.
  exists scored. split; [exact Hlog|].
  assert (Hlen : List.length scored = 2%nat) by exact Hend.
  clear Hend Hlog.
  destruct scored as [|[n1 h1] [|[n2 h2] [|d scored]]];
    try discriminate Hlen.
  cbn [scored_in_turn firstn List.length] in Hturns.
  destruct Hturns as (Hn1 & _ & Hn2 & _).
  rewrite Hn1, Hn2. reflexivity.
Defined.

(** ** The further properties on the concrete setting *)

Lemma parsed_scene_and_listener_are_clean_witness :
  "S0001" <> EmptyString /\ "L0001" <> EmptyString
  /\ Str.contains "_" "S0001" = false /\ Str.contains "_" "L0001" = false.
Proof.
  apply (parsed_scene_and_listener_are_clean
           "S0001_L0001_E001_hr" "S0001" "L0001" "E001_hr").
  reflexivity.
Defined.

Lemma parse_is_injective_witness : "S1_L1_E1_hr" = "S1_L1_E1_hr".
Proof.
  apply (parse_is_injective "S1_L1_E1_hr" "S1_L1_E1_hr" ("S1", "L1", "E1_hr"));
    reflexivity.
Defined.

Lemma parse_error_messages_witness :
  parse_cec2_signal_name "S0001"
  = Raise (ValueError "not enough values to unpack (expected at least 2, got 1)")
  /\ ValueError "Invalid CEC2 signal name: S0001_L0001"
     = ValueError ("Invalid CEC2 signal name: " ++ "S0001_L0001").
Proof.
  split.
  - apply (proj1 (parse_error_messages "S0001")). reflexivity.
  - apply (proj2 (parse_error_messages "S0001_L0001") eq_refl). reflexivity.
Defined.

(** The records of [a] and [b] written to a file that was not there. *)
Lemma read_jsonl_after_write_jsonl_witness :
  fst (read_jsonl "abc.haspi.jsonl"
         (snd (write_jsonl "abc.haspi.jsonl"
                           [result_record "S1_L1_E1" 0.5%float;
                            result_record "S2_L1_E1" 0.5%float]
                           Demo.fresh)))
  = Ok [result_record "S1_L1_E1" 0.5%float;
        result_record "S2_L1_E1" 0.5%float].
Proof.
  apply (read_jsonl_after_write_jsonl (E := Demo.externals)).
  - reflexivity.
  - repeat constructor.
  - reflexivity.
Defined.

(** A log whose second line is no JSON. *)
Lemma read_jsonl_errors_witness :
  read_jsonl "abc.haspi.jsonl" (Cases.garbled "abc.haspi.jsonl")
  = (Raise (JSONDecodeError "Expecting value"),
     Cases.garbled "abc.haspi.jsonl").
Proof.
  apply (proj2 (read_jsonl_errors (E := Demo.externals) "abc.haspi.jsonl"
                                  (Cases.garbled "abc.haspi.jsonl"))
               [Demo.dumps (result_record "S1_L1_E1" 0.5%float)]
               "S2_L1_E1 0.5" []
               [result_record "S1_L1_E1" 0.5%float]);
    reflexivity.
Defined.

(** A name of two segments. *)
Lemma short_name_stops_at_the_parser_witness :
  exists msg,
    compute_haspi_for_signal "S1_L1" Demo.paths Demo.fresh
    = (Raise (ValueError msg), Demo.fresh).
Proof.
  apply (short_name_stops_at_the_parser (E := Demo.externals)).
  cbn. lia.
Defined.

(** A listener that the metadata does not know, and a signal without its
    processed file. *)
Lemma first_missing_input_decides_witness :
  compute_haspi_for_signal "S1_L7_E1" Demo.paths Demo.fresh
  = (Raise (KeyError "L7"), Demo.fresh)
  /\ compute_haspi_for_signal "S4_L1_E1" Demo.paths Demo.fresh
     = (Raise (FileNotFoundError "signals/S4_L1_E1.wav"), Demo.fresh).
Proof.
  split.
  - apply (proj1 (proj2 (first_missing_input_decides
                           (E := Demo.externals) "S1_L7_E1" Demo.paths
                           Demo.fresh "S1" "L7" "E1" eq_refl))
                 [("L1", Demo.audiogram)]);
      reflexivity.
  - apply (proj1 (proj2 (proj2 (first_missing_input_decides
                                  (E := Demo.externals) "S4_L1_E1" Demo.paths
                                  Demo.fresh "S4" "L1" "E1" eq_refl))
                        (JObj [("L1", Demo.audiogram)]) Demo.audiogram
                        eq_refl eq_refl));
      reflexivity.
Defined.

(** The processed signal of scene S8 has another rate than its reference. *)
Lemma different_rates_stop_at_the_assertion_witness :
  compute_haspi_for_signal "S8_L1_E1" Demo.paths Demo.fresh
  = (Raise AssertionError, Demo.fresh).
Proof.
  apply (different_rates_stop_at_the_assertion
           (E := Demo.externals) "S8_L1_E1" Demo.paths Demo.fresh
           "S8" "L1" "E1" (JObj [("L1", Demo.audiogram)]) Demo.audiogram
           (Demo.stereo 16000) (Demo.stereo 44100));
    try reflexivity.
  discriminate.
Defined.

(** The files of scene S9 are mono. *)
Lemma fewer_than_two_channels_raise_witness :
  exists msg,
    compute_haspi_for_signal "S9_L1_E1" Demo.paths Demo.fresh
    = (Raise (IndexError msg), Demo.fresh).
Proof.
  apply (fewer_than_two_channels_raise
           (E := Demo.externals) "S9_L1_E1" Demo.paths Demo.fresh
           "S9" "L1" "E1" (JObj [("L1", Demo.audiogram)]) Demo.audiogram
           (Demo.mono 44100) (Demo.mono 44100));
    first [reflexivity | exact I].
Defined.

(** A fresh world and one with a log and another generator state. *)
Lemma seeded_score_ignores_history_witness :
  fst (compute_haspi_for_signal
         "S1_L1_E1" Demo.paths
         (snd (set_seed_with_string "S1_L1_E1" Demo.fresh)))
  = fst (compute_haspi_for_signal
           "S1_L1_E1" Demo.paths
           (snd (set_seed_with_string
                   "S1_L1_E1"
                   (set_np_random (E := Demo.externals) 7%Z
                                 (Demo.resumed "abc.haspi.jsonl"))))).
Proof.
  apply (seeded_score_ignores_history
           (E := Demo.externals) "S1_L1_E1" Demo.paths Demo.fresh
           (set_np_random (E := Demo.externals) 7%Z
                                 (Demo.resumed "abc.haspi.jsonl")));
    reflexivity.
Defined.

(** A dataset without a manifest. *)
Lemma missing_manifest_aborts_witness :
  run_calculate_haspi (Demo.config "nowhere" 1 1) Demo.fresh
  = (Raise (FileNotFoundError "metadata/nowhere.json"), Demo.fresh).
Proof.
  apply (missing_manifest_aborts (E := Demo.externals)
                                 (Demo.config "nowhere" 1 1) Demo.fresh).
  reflexivity.
Defined.

(** A batch count of zero. *)
Lemma zero_batches_raise_witness :
  results_file_name (Demo.config "abc" 1 0) = "abc.haspi.jsonl"%string
  /\ run_calculate_haspi (Demo.config "abc" 1 0) Demo.fresh
     = (Raise (ValueError "slice step cannot be zero"), Demo.fresh).
Proof.
  apply (zero_batches_raise (E := Demo.externals) (Demo.config "abc" 1 0)
                            Demo.fresh [Demo.a; Demo.b; Demo.c] [] []);
    reflexivity.
Defined.

(** A log whose second line is no JSON stops the driver. *)
Lemma unreadable_log_aborts_witness :
  run_calculate_haspi (Demo.config "abc" 1 1)
                      (Cases.garbled "abc.haspi.jsonl")
  = (Raise (JSONDecodeError "Expecting value"),
     Cases.garbled "abc.haspi.jsonl").
Proof.
  apply (unreadable_log_aborts
           (E := Demo.externals) (Demo.config "abc" 1 1)
           (Cases.garbled "abc.haspi.jsonl") [Demo.a; Demo.b; Demo.c]).
  - reflexivity.
  - left. reflexivity.
Defined.

(** A record with a score and no signal, behind a good one. *)
Lemma first_unindexable_record_stops_the_index_witness :
  build_results_index
    ([result_record "S1_L1_E1" 0.5%float]
       ++ JObj [("haspi", JFloat 0.5%float)] :: [])
  = Raise (KeyError "signal").
Proof.
  apply (proj1 (first_unindexable_record_stops_the_index
                  [result_record "S1_L1_E1" 0.5%float]
                  [(JStr "S1_L1_E1", result_record "S1_L1_E1" 0.5%float)]
                  (JObj [("haspi", JFloat 0.5%float)]) [] eq_refl)
               [("haspi", JFloat 0.5%float)]);
    reflexivity.
Defined.

(** Batch 0 of 2 over the fresh manifest [a; b; c]. *)
Lemma batch_zero_takes_the_last_record_witness :
  select_records (Demo.config "abc" 0 2) [] [Demo.a; Demo.b; Demo.c]
  = Ok [Demo.c].
Proof.
  apply (proj2 (batch_zero_takes_the_last_record
                  (Demo.config "abc" 0 2) [] [Demo.a; Demo.b; Demo.c]
                  eq_refl ltac:(cbn; lia))
               [Demo.a; Demo.b]).
  reflexivity.
Defined.

(** An empty manifest. *)
Lemma empty_manifest_is_a_no_op_witness :
  run_calculate_haspi (Demo.config "empty" 1 1) Cases.with_empty_manifest
  = (Ok tt, Cases.with_empty_manifest).
Proof.
  apply (empty_manifest_is_a_no_op
           (E := Demo.externals) (Demo.config "empty" 1 1)
           Cases.with_empty_manifest [] []);
    try reflexivity.
  discriminate.
Defined.

(** Shard 1 of 2 of the fresh manifest [a; b; c] scores [a] and [c]. *)
Lemma run_scores_a_prefix_of_the_selection_witness :
  exists scored,
    log_lines (snd (run_calculate_haspi (Demo.config "abc" 1 2) Demo.fresh))
              (results_file_name (Demo.config "abc" 1 2))
    = log_lines Demo.fresh (results_file_name (Demo.config "abc" 1 2))
      ++ map result_line scored
    /\ map fst scored
       = map signal (firstn (List.length scored) [Demo.a; Demo.c]).
Proof.
  destruct (run_scores_a_prefix_of_the_selection
              (E := Demo.externals) (Demo.config "abc" 1 2) Demo.fresh
              [Demo.a; Demo.b; Demo.c] [] [] [Demo.a; Demo.c]
              eq_refl eq_refl eq_refl eq_refl)
    as (scored & Hlog & Hnames & _).
  exists scored. split; assumption.
Defined.

(** The manifest [a; s9; c]: the first run logs [a] and stops at the mono
    files of [s9]; once they are replaced, the second run completes, and
    the log has a record for [c]. *)
Lemma resumed_run_completes_the_log_witness :
  logged (snd (run_calculate_haspi
                 (Demo.config "a9c" 1 1)
                 (Cases.repaired
                    (snd (run_calculate_haspi (Demo.config "a9c" 1 1)
                                              Cases.with_mono_scene)))))
         (results_file_name (Demo.config "a9c" 1 1)) (signal Demo.c).
Proof.
  assert (Hall : forall r, In r [Demo.a; Cases.s9; Demo.c] ->
            logged (snd (run_calculate_haspi
                           (Demo.config "a9c" 1 1)
                           (Cases.repaired
                              (snd (run_calculate_haspi
                                      (Demo.config "a9c" 1 1)
                                      Cases.with_mono_scene)))))
                   (results_file_name (Demo.config "a9c" 1 1)) (signal r)).
  { apply (proj2 (resumed_run_completes_the_log
                    (E := Demo.externals) (Demo.config "a9c" 1 1)
                    Cases.with_mono_scene
                    (Cases.repaired
                       (snd (run_calculate_haspi (Demo.config "a9c" 1 1)
                                                 Cases.with_mono_scene)))
                    [Demo.a; Cases.s9; Demo.c]
                    eq_refl eq_refl eq_refl eq_refl
                    ltac:(intros r h [<-|[<-|[<-|[]]]]; unfold logged_signal;
                          cbn [json_dumps json_loads Demo.externals];
                          unfold Demo.dumps, Demo.repr_float, result_record;
                          cbn [getitem assoc String.eqb Ascii.eqb Bool.eqb signal
                                       Demo.a Cases.s9 Demo.c];
                          destruct (PrimFloat.eqb h 0.5); reflexivity)
                    eq_refl eq_refl ltac:(vm_compute; reflexivity))). }
  apply Hall. right; right; left. reflexivity.
Defined.

(** Two configurations of shard 2 of 3 that differ in the seeding only. *)
Lemma shards_keep_separate_logs_witness :
  batch (compute_haspi (Demo.config "abc" 2 3))
  = batch (compute_haspi (Cases.unseeded "abc" 2 3)).
Proof.
  apply (shards_keep_separate_logs (Demo.config "abc" 2 3)
                                   (Cases.unseeded "abc" 2 3));
    reflexivity.
Defined.

(** A shard number past the end with a negative batch count. *)
Lemma selection_is_within_the_unscored_witness :
  (forall r, In r [Demo.c; Demo.a] ->
     In r [Demo.a; Demo.b; Demo.c] /\ in_keys (signal r) [] = false)
  /\ (List.length [Demo.c; Demo.a]
      <= List.length (unscored [] [Demo.a; Demo.b; Demo.c]))%nat.
Proof.
  apply (selection_is_within_the_unscored
           (Demo.config "abc" 7 (-2)) [] [Demo.a; Demo.b; Demo.c]).
  reflexivity.
Defined.
